(** * github_webhook: signature validation and dispatch pipeline

    A shallow embedding of the two modules of the repository: [mod.ts],
    published on deno.land/x, and its sibling published on JSR. They share
    [handle], [validateSignature], [parseHeaders] and [webhookBuilder]
    line for line, and differ in [server] (modules [DenoLand] and [Jsr]
    below) and in the HMAC library they import.

    Conventions
    - a JavaScript string is its sequence of UTF-16 code units ([jsstr]);
    - [string | null] and [string | undefined] are [option jsstr];
    - [Response | undefined] is [option Response];
    - effects (console output, [JSON.parse], handler calls, thrown faults)
      go through the monad [M], which threads the handlers' world and
      collects the effects performed;
    - handlers are total: a handler that never settles is not modelled. *)

From Stdlib Require Import String Ascii ZArith List Bool Lia.
Import ListNotations.
Local Open Scope Z_scope.

(* ===================================================================== *)
(** ** JavaScript strings and [TextEncoder] *)
(* ===================================================================== *)

Definition jsstr := list Z.

(** An ASCII literal as code units. *)
Definition lit (s : string) : jsstr :=
  map (fun a => Z.of_N (N_of_ascii a)) (list_ascii_of_string s).

(** [a === b] on strings. *)
Fixpoint str_eqb (a b : jsstr) : bool :=
  match a, b with
  | [], [] => true
  | x :: a', y :: b' => (x =? y) && str_eqb a' b'
  | _, _ => false
  end.

(** Truthiness of [string | null | undefined]: only a non-empty string. *)
Definition truthy (v : option jsstr) : bool :=
  match v with
  | Some (_ :: _) => true
  | _ => false
  end.

Module Utf8.

Definition is_lead (c : Z) : bool := (0xD800 <=? c) && (c <=? 0xDBFF).
Definition is_trail (c : Z) : bool := (0xDC00 <=? c) && (c <=? 0xDFFF).

(** Code units to Unicode scalar values; a surrogate that is not half of a
    pair becomes U+FFFD, as [TextEncoder] and [Buffer.from(_, 'utf8')] do. *)
Fixpoint scalar_values (s : jsstr) : list Z :=
  match s with
  | [] => []
  | c :: rest =>
      if is_lead c then
        match rest with
        | d :: rest' =>
            if is_trail d
            then (0x10000 + (c - 0xD800) * 0x400 + (d - 0xDC00)) :: scalar_values rest'
            else 0xFFFD :: scalar_values rest
        | [] => [0xFFFD]
        end
      else if is_trail c then 0xFFFD :: scalar_values rest
      else c :: scalar_values rest
  end.

Definition cont (x : Z) : Z := Z.lor 0x80 (Z.land x 0x3F).

Definition bytes_of_scalar (cp : Z) : list Z :=
  if cp <? 0x80 then [cp]
  else if cp <? 0x800 then [Z.lor 0xC0 (Z.shiftr cp 6); cont cp]
  else if cp <? 0x10000 then
    [Z.lor 0xE0 (Z.shiftr cp 12); cont (Z.shiftr cp 6); cont cp]
  else
    [Z.lor 0xF0 (Z.shiftr cp 18); cont (Z.shiftr cp 12); cont (Z.shiftr cp 6); cont cp].

(** [new TextEncoder().encode(s)] *)
Definition encode (s : jsstr) : list Z := flat_map bytes_of_scalar (scalar_values s).

End Utf8.

(* ===================================================================== *)
(** ** SHA-256 (FIPS 180-4) and HMAC (RFC 2104)

    What [hmac('sha256', secret, body, 'utf8', 'hex')] and
    [hmacSha256(body, Buffer.from(secret, 'utf8'))] compute: both imports
    are external libraries, modelled by the standards they implement. *)
(* ===================================================================== *)

Module SHA256.

Definition w32 (x : Z) : Z := x mod 2 ^ 32.
Definition add32 (x y : Z) : Z := w32 (x + y).
Definition rotr (n x : Z) : Z := Z.lor (Z.shiftr x n) (w32 (Z.shiftl x (32 - n))).
Definition not32 (x : Z) : Z := Z.lxor x 0xFFFFFFFF.

Definition Ch (x y z : Z) : Z := Z.lxor (Z.land x y) (Z.land (not32 x) z).
Definition Maj (x y z : Z) : Z :=
  Z.lxor (Z.lxor (Z.land x y) (Z.land x z)) (Z.land y z).
Definition bsig0 (x : Z) : Z := Z.lxor (Z.lxor (rotr 2 x) (rotr 13 x)) (rotr 22 x).
Definition bsig1 (x : Z) : Z := Z.lxor (Z.lxor (rotr 6 x) (rotr 11 x)) (rotr 25 x).
Definition ssig0 (x : Z) : Z := Z.lxor (Z.lxor (rotr 7 x) (rotr 18 x)) (Z.shiftr x 3).
Definition ssig1 (x : Z) : Z := Z.lxor (Z.lxor (rotr 17 x) (rotr 19 x)) (Z.shiftr x 10).

Definition nibble (a : ascii) : Z :=
  let n := Z.of_N (N_of_ascii a) in
  if n <? 58 then n - 48 else n - 87.

(** The 32-bit words written in a string of lowercase hex digits, eight
    digits a word. *)
Fixpoint hex_words (s : string) (acc : Z) (seen : nat) : list Z :=
  match s with
  | EmptyString => []
  | String a s' =>
      let acc' := acc * 16 + nibble a in
      match seen with
      | 7%nat => acc' :: hex_words s' 0 0
      | _ => hex_words s' acc' (S seen)
      end
  end.

Definition words (s : string) : list Z := hex_words s 0 0.

(** The round constants, eight to a row. *)
Definition K : list Z :=
  words "428a2f9871374491b5c0fbcfe9b5dba53956c25b59f111f1923f82a4ab1c5ed5"
  ++ words "d807aa9812835b01243185be550c7dc372be5d7480deb1fe9bdc06a7c19bf174"
  ++ words "e49b69c1efbe47860fc19dc6240ca1cc2de92c6f4a7484aa5cb0a9dc76f988da"
  ++ words "983e5152a831c66db00327c8bf597fc7c6e00bf3d5a7914706ca635114292967"
  ++ words "27b70a852e1b21384d2c6dfc53380d13650a7354766a0abb81c2c92e92722c85"
  ++ words "a2bfe8a1a81a664bc24b8b70c76c51a3d192e819d6990624f40e3585106aa070"
  ++ words "19a4c1161e376c082748774c34b0bcb5391c0cb34ed8aa4a5b9cca4f682e6ff3"
  ++ words "748f82ee78a5636f84c878148cc7020890befffaa4506cebbef9a3f7c67178f2".

(** The initial hash value. *)
Definition H0 : list Z :=
  words "6a09e667bb67ae853c6ef372a54ff53a510e527f9b05688c1f83d9ab5be0cd19".

(** Big-endian bytes of the low [8 * n] bits of [x]. *)
Fixpoint be_bytes (n : nat) (x : Z) : list Z :=
  match n with
  | O => []
  | S n' => Z.land (Z.shiftr x (8 * Z.of_nat n')) 0xFF :: be_bytes n' x
  end.

Fixpoint be_words (fuel : nat) (bs : list Z) : list Z :=
  match fuel, bs with
  | S f, b0 :: b1 :: b2 :: b3 :: rest =>
      (((b0 * 256 + b1) * 256 + b2) * 256 + b3) :: be_words f rest
  | _, _ => []
  end.

Definition pad (msg : list Z) : list Z :=
  let len := Z.of_nat (length msg) in
  msg ++ [0x80] ++ repeat 0 (Z.to_nat ((55 - len) mod 64)) ++ be_bytes 8 (8 * len).

Fixpoint blocks (fuel : nat) (bs : list Z) : list (list Z) :=
  match fuel, bs with
  | S f, _ :: _ => firstn 64 bs :: blocks f (skipn 64 bs)
  | _, _ => []
  end.

(** The message schedule: sixteen block words extended to sixty-four. *)
Fixpoint schedule (n : nat) (ws : list Z) : list Z :=
  match n with
  | O => ws
  | S n' =>
      let at_ k := nth (length ws - k) ws 0 in
      schedule n'
        (ws ++ [add32 (add32 (ssig1 (at_ 2%nat)) (at_ 7%nat))
                      (add32 (ssig0 (at_ 15%nat)) (at_ 16%nat))])
  end.

Definition vars := (Z * Z * Z * Z * Z * Z * Z * Z)%type.

Definition round (v : vars) (kw : Z * Z) : vars :=
  let '(a, b, c, d, e, f, g, h) := v in
  let t1 := add32 (add32 (add32 h (bsig1 e)) (add32 (Ch e f g) (fst kw))) (snd kw) in
  let t2 := add32 (bsig0 a) (Maj a b c) in
  (add32 t1 t2, a, b, c, add32 d t1, e, f, g).

Definition compress (hs : list Z) (block : list Z) : list Z :=
  match hs with
  | [a; b; c; d; e; f; g; h] =>
      let ws := schedule 48 (be_words 16 block) in
      let '(a', b', c', d', e', f', g', h') :=
        fold_left round (combine K ws) (a, b, c, d, e, f, g, h) in
      [add32 a a'; add32 b b'; add32 c c'; add32 d d';
       add32 e e'; add32 f f'; add32 g g'; add32 h h']
  | _ => hs
  end.

Definition digest (msg : list Z) : list Z :=
  let p := pad msg in
  flat_map (be_bytes 4) (fold_left compress (blocks (length p) p) H0).

End SHA256.

Module HMAC.

Definition block_size : nat := 64.

Definition block_key (key : list Z) : list Z :=
  let k := if (block_size <? length key)%nat then SHA256.digest key else key in
  k ++ repeat 0 (block_size - length k).

Definition sha256 (key msg : list Z) : list Z :=
  let k := block_key key in
  SHA256.digest (map (Z.lxor 0x5c) k ++ SHA256.digest (map (Z.lxor 0x36) k ++ msg)).

End HMAC.

(** Lowercase hexadecimal, two digits per byte. *)
Definition hex_digit (v : Z) : Z := nth (Z.to_nat v) (lit "0123456789abcdef") 0.

Definition hex (bs : list Z) : jsstr :=
  flat_map (fun b => [hex_digit (Z.shiftr b 4); hex_digit (Z.land b 0xF)]) bs.

(** The HMAC-SHA256 of [body] under [secret], both UTF-8 encoded, in hex:
    the value of either library call. *)
Definition hmac (secret body : jsstr) : jsstr :=
  hex (HMAC.sha256 (Utf8.encode secret) (Utf8.encode body)).


(* ===================================================================== *)
(** ** The host platform: requests, responses, effects *)
(* ===================================================================== *)

(** What the module takes from its host: the decoded payload type with
    [JSON.parse] ([None] when it throws a [SyntaxError]), and the world the
    caller's handlers act on. *)
Class Host : Type := {
  payload : Type;
  world : Type;
  JSON_parse : jsstr -> option payload
}.

Record Response : Type := mkResponse {
  status : Z;
  body : option jsstr
}.

(** [new Response(undefined, { status })] *)
Definition empty_response (st : Z) : Response := mkResponse st None.

(** A [Headers] object: its header list, in order. *)
Definition Headers := list (jsstr * jsstr).

Definition lower (c : Z) : Z := if (65 <=? c) && (c <=? 90) then c + 32 else c.

Definition name_eqb (a b : jsstr) : bool := str_eqb (map lower a) (map lower b).

Fixpoint join (sep : jsstr) (vs : list jsstr) : jsstr :=
  match vs with
  | [] => []
  | [v] => v
  | v :: rest => v ++ sep ++ join sep rest
  end.

(** [headers.get(name)]: [null] when no header has the name, otherwise the
    values of all that do, joined by a comma and a space. *)
Definition Headers_get (h : Headers) (name : jsstr) : option jsstr :=
  match filter (fun nv => name_eqb (fst nv) name) h with
  | [] => None
  | vs => Some (join (lit ", ") (map snd vs))
  end.

(** A [Request] whose body can be read: [text] is what [request.text()]
    resolves to, [url_pathname] is [new URL(request.url).pathname]. *)
Record Request : Type := mkRequest {
  method : jsstr;
  url_pathname : jsstr;
  headers : Headers;
  text : jsstr
}.

Inductive completion (A : Type) : Type :=
| Normal (a : A)
| Throw.
Arguments Normal {A} a.
Arguments Throw {A}.

Section Pipeline.
Context {host : Host}.

(** A registered handler. Its function acts on the world and either
    returns ([Response] or nothing) or throws; a returned promise is
    represented by what it settles to, since [handle] awaits it. *)
Record Handler : Type := mkHandler {
  event : jsstr;
  handler : payload -> world -> world * completion (option Response)
}.

(** Observable steps of one run, in the order they happen. *)
Inductive effect : Type :=
| Warn (msg : jsstr)                                (* console.warn *)
| Log (msg style : jsstr)                           (* console.log('%c..', style) *)
| Parse (src : jsstr)                               (* JSON.parse(src) entered *)
| Invoke (k : nat) (p : payload)                    (* handlers[k].handler(p) entered *)
| Settle (k : nat) (c : completion (option Response)). (* its await resumed *)

(** Computations: world in, world out, the effects performed, and a
    normal or abrupt completion. *)
Definition M (A : Type) : Type := world -> world * list effect * completion A.

Definition ret {A} (a : A) : M A := fun w => (w, [], Normal a).

Definition bind {A B} (m : M A) (f : A -> M B) : M B :=
  fun w =>
    match m w with
    | (w1, t1, Normal a) => let '(w2, t2, c) := f a w1 in (w2, t1 ++ t2, c)
    | (w1, t1, Throw) => (w1, t1, Throw)
    end.

Definition emit (e : effect) : M unit := fun w => (w, [e], Normal tt).

Definition throw {A} : M A := fun w => (w, [], Throw).

(** [try { m } catch { h }] *)
Definition try_catch {A} (m h : M A) : M A :=
  fun w =>
    match m w with
    | (w1, t1, Throw) => let '(w2, t2, c) := h w1 in (w2, t1 ++ t2, c)
    | r => r
    end.

(** [if (c) { m }] *)
Definition when (c : bool) (m : M unit) : M unit := if c then m else ret tt.

(** [a || b] and [a && b] where only [b] has effects. *)
Definition orM (a : bool) (b : M bool) : M bool := if a then ret true else b.
Definition andM (a : bool) (b : M bool) : M bool := if a then b else ret false.

(** The parts of a finished run. *)
Definition final {A} (r : world * list effect * completion A) : world := fst (fst r).
Definition trace {A} (r : world * list effect * completion A) : list effect := snd (fst r).
Definition outcome {A} (r : world * list effect * completion A) : completion A := snd r.

End Pipeline.

Declare Scope js_scope.
Delimit Scope js_scope with js.
Notation "x <- m ;; k" := (bind m (fun x => k))
  (at level 61, m at next level, right associativity) : js_scope.
Notation "m ;; k" := (bind m (fun _ => k))
  (at level 61, right associativity) : js_scope.
Notation "' pat <- m ;; k" := (bind m (fun x => match x with pat => k end))
  (at level 61, pat pattern, m at next level, right associativity) : js_scope.
Local Open Scope js_scope.

(* ===================================================================== *)
(** ** The module's functions *)
(* ===================================================================== *)

(** [timingSafeEqual(a, b)] of Deno's std: unequal lengths are unequal,
    otherwise the byte-wise XORs are OR-ed together and compared with 0. *)
Definition timingSafeEqual (a b : list Z) : bool :=
  if negb (length a =? length b)%nat then false
  else fold_left (fun out ab => Z.lor out (Z.lxor (fst ab) (snd ab))) (combine a b) 0 =? 0.

(** The narrowed value of a [string | null] known to be a string. *)
Definition str (v : option jsstr) : jsstr :=
  match v with Some s => s | None => [] end.

(** [target === event] with [event : string | null]. *)
Definition strict_eqb (target : jsstr) (ev : option jsstr) : bool :=
  match ev with Some e => str_eqb target e | None => false end.

(** What a valid signature header reads: [sha256=] and the lowercase hex
    of HMAC-SHA256 keyed with the secret over the body. *)
Definition expected_signature (secret body : jsstr) : jsstr :=
  lit "sha256=" ++ hex (HMAC.sha256 (Utf8.encode secret) (Utf8.encode body)).

Section Functions.
Context {host : Host}.

Definition validateSignature (signature body secret ev : jsstr) : M bool :=
  let sigHashAlg := lit "sha256" in
  let sig := Utf8.encode signature in
  let digest := Utf8.encode (sigHashAlg ++ lit "=" ++ hmac secret body) in
  if negb (length sig =? length digest)%nat || negb (timingSafeEqual digest sig) then
    emit (Log (lit "%c[" ++ ev ++ lit "] crypto: fail") (lit "color: red")) ;;
    ret false
  else
    emit (Log (lit "%c[" ++ ev ++ lit "] crypto: ok") (lit "color: green")) ;;
    ret true.

(** The text [Header "<name>" not found]; 34 is the double quote. *)
Definition not_found (name : jsstr) : jsstr :=
  lit "Header " ++ [34] ++ name ++ [34] ++ lit " not found".

Definition parseHeaders (hs : Headers) : M (option jsstr * option jsstr) :=
  let ev := Headers_get hs (lit "x-github-event") in
  let signature := Headers_get hs (lit "x-hub-signature-256") in
  when (negb (truthy ev)) (emit (Warn (not_found (lit "x-github-event")))) ;;
  when (negb (truthy signature))
       (emit (Warn (not_found (lit "x-hub-signature-256")))) ;;
  ret (ev, signature).

(** [await handler(payload)] for the handler at index [k]. *)
Definition invoke (k : nat) (h : Handler) (p : payload) : M (option Response) :=
  emit (Invoke k p) ;;
  c <- (fun w => let '(w', c) := handler h p w in (w', [], Normal c)) ;;
  emit (Settle k c) ;;
  match c with
  | Normal r => ret r
  | Throw => throw
  end.

(** The [for ... of handlers] loop from index [k] on; [Some] is the
    [return response] inside it, [None] is running off the end. *)
Fixpoint dispatch (k : nat) (hs : list Handler) (ev : option jsstr) (p : payload)
  : M (option Response) :=
  match hs with
  | [] => ret None
  | h :: rest =>
      if strict_eqb (event h) ev then
        response <- invoke k h p ;;
        match response with
        | Some r => ret (Some r)
        | None => dispatch (S k) rest ev p
        end
      else dispatch (S k) rest ev p
  end.

(** [JSON.parse(body)] *)
Definition parse (src : jsstr) : M payload :=
  emit (Parse src) ;;
  match JSON_parse src with
  | Some p => ret p
  | None => throw
  end.

(** The guard of [handle]: [!event || (secret && (!signature || !validateSignature(..)))]. *)
Definition denied (ev signature : option jsstr) (body : jsstr) (secret : option jsstr)
  : M bool :=
  orM (negb (truthy ev))
      (andM (truthy secret)
            (orM (negb (truthy signature))
                 (ok <- validateSignature (str signature) body (str secret) (str ev) ;;
                  ret (negb ok)))).

Definition handle (request : Request) (handlers : list Handler) (secret : option jsstr)
  : M (option Response) :=
  let body := text request in
  '(ev, signature) <- parseHeaders (headers request) ;;
  no <- denied ev signature body secret ;;
  if no then ret (Some (empty_response 403))
  else
    try_catch
      (p <- parse body ;; dispatch 0 handlers ev p)
      (ret (Some (empty_response 500))).

End Functions.

(* ===================================================================== *)
(** ** The builder

    [webhookBuilder(handlers, secret)] returns an object whose three
    methods close over the array [handlers] and over [secret]. Arrays are
    mutable objects, so the closure holds a reference into a heap of
    arrays; [[...handlers, entry]] allocates a new array. *)
(* ===================================================================== *)

Section Builder.
Context {host : Host}.

Definition Heap := list (list Handler).

Definition array_at (heap : Heap) (r : nat) : list Handler := nth r heap [].

Definition alloc (a : list Handler) (heap : Heap) : Heap * nat :=
  (heap ++ [a], length heap).

(** The closure environment of a builder object. *)
Record Builder : Type := mkBuilder {
  builder_handlers : nat;
  builder_secret : option jsstr
}.

Definition webhookBuilder (handlers : nat) (secret : option jsstr) : Builder :=
  mkBuilder handlers secret.

(** [webhook(secret?)]: [webhookBuilder([], secret)] *)
Definition webhook (secret : option jsstr) (heap : Heap) : Heap * Builder :=
  let '(heap', r) := alloc [] heap in
  (heap', webhookBuilder r secret).

(** [b.on(event, handler)]:
    [webhookBuilder([...handlers, { event, handler }], secret)] *)
Definition on (b : Builder) (ev : jsstr)
  (h : payload -> world -> world * completion (option Response)) (heap : Heap)
  : Heap * Builder :=
  let '(heap', r) := alloc (array_at heap (builder_handlers b) ++ [mkHandler ev h]) heap in
  (heap', webhookBuilder r (builder_secret b)).

(** [b.handle(request)]: [handle(request, handlers, secret)] *)
Definition builder_handle (b : Builder) (request : Request) (heap : Heap)
  : M (option Response) :=
  handle request (array_at heap (builder_handlers b)) (builder_secret b).

(** The default [pathname = ''] of [listen]. *)
Definition pathname_or_default (pathname : option jsstr) : jsstr :=
  match pathname with Some p => p | None => [] end.

End Builder.

(** [server] in [mod.ts]: the callback it passes to [serve]; binding the
    port is the host's business. *)
Module DenoLand.
Section Server.
Context {host : Host}.

Definition server (port : Z) (pathname : jsstr) (handlers : list Handler)
  (secret : option jsstr) (request : Request) : M Response :=
  if str_eqb (method request) (lit "POST") then
    if str_eqb (url_pathname request) pathname then
      response <- handle request handlers secret ;;
      match response with
      | Some r => ret r
      | None => ret (empty_response 200)
      end
    else ret (empty_response 404)
  else ret (empty_response 404).

(** [b.listen(port, pathname = '')], as the callback now serving. *)
Definition listen (b : Builder) (port : Z) (pathname : option jsstr) (heap : Heap)
  : Request -> M Response :=
  server port (pathname_or_default pathname)
         (array_at heap (builder_handlers b)) (builder_secret b).

End Server.
End DenoLand.

(** [server] in the JSR sibling: the callback it passes to [Deno.serve]. *)
Module Jsr.
Section Server.
Context {host : Host}.

(** [s || '/'] *)
Definition or_root (s : jsstr) : jsstr :=
  match s with [] => lit "/" | _ => s end.

Definition server (port : Z) (pathname : jsstr) (handlers : list Handler)
  (secret : option jsstr) (request : Request) : M Response :=
  if str_eqb (method request) (lit "POST") then
    if str_eqb (or_root (url_pathname request)) (or_root pathname) then
      response <- handle request handlers secret ;;
      match response with
      | Some r => ret r
      | None => ret (empty_response 200)
      end
    else ret (empty_response 404)
  else ret (empty_response 404).

(** [b.listen(port, pathname = '')], as the callback now serving. *)
Definition listen (b : Builder) (port : Z) (pathname : option jsstr) (heap : Heap)
  : Request -> M Response :=
  server port (pathname_or_default pathname)
         (array_at heap (builder_handlers b)) (builder_secret b).

End Server.
End Jsr.

(* ===================================================================== *)
(** ** Vocabulary of the properties *)
(* ===================================================================== *)

Definition ascii_unit (c : Z) : Prop := 0 <= c < 128.

Section Vocabulary.
Context {host : Host}.

(** The two lines [validateSignature] can print. *)
Definition ok_line (ev : jsstr) : effect :=
  Log (lit "%c[" ++ ev ++ lit "] crypto: ok") (lit "color: green").
Definition fail_line (ev : jsstr) : effect :=
  Log (lit "%c[" ++ ev ++ lit "] crypto: fail") (lit "color: red").

Definition event_header (request : Request) : option jsstr :=
  Headers_get (headers request) (lit "x-github-event").
Definition signature_header (request : Request) : option jsstr :=
  Headers_get (headers request) (lit "x-hub-signature-256").

(** A secret is configured when it is a non-empty string. *)
Definition configured (secret : option jsstr) : Prop :=
  exists s, secret = Some s /\ s <> [].

(** The request passes the guard of [handle]: it names an event and, when
    a secret is configured, carries the expected signature. *)
Definition authorized (request : Request) (secret : option jsstr) : bool :=
  truthy (event_header request)
  && (negb (truthy secret)
      || (truthy (signature_header request)
          && str_eqb (str (signature_header request))
                     (expected_signature (str secret) (text request)))).

(** What [parseHeaders] and the guard print for a request. *)
Definition gate_trace (request : Request) (secret : option jsstr) : list effect :=
  let ev := event_header request in
  let sg := signature_header request in
  (if truthy ev then [] else [Warn (not_found (lit "x-github-event"))])
  ++ (if truthy sg then [] else [Warn (not_found (lit "x-hub-signature-256"))])
  ++ (if truthy ev && truthy secret && truthy sg
      then [if str_eqb (str sg) (expected_signature (str secret) (text request))
            then ok_line (str ev) else fail_line (str ev)]
      else []).

Definition is_console (e : effect) : bool :=
  match e with Warn _ | Log _ _ => true | _ => false end.
Definition is_parse (e : effect) : bool :=
  match e with Parse _ => true | _ => false end.
Definition is_invoke (e : effect) : bool :=
  match e with Invoke _ _ => true | _ => false end.
Definition is_handler_step (e : effect) : bool :=
  match e with Invoke _ _ | Settle _ _ => true | _ => false end.

(** The handler calls of a trace that were awaited to their end, with
    what each settled to. *)
Fixpoint settled (t : list effect) : list (nat * completion (option Response)) :=
  match t with
  | [] => []
  | Settle k c :: t' => (k, c) :: settled t'
  | _ :: t' => settled t'
  end.

(** The two steps of one awaited call. *)
Definition steps (p : payload) (kc : nat * completion (option Response)) : list effect :=
  [Invoke (fst kc) p; Settle (fst kc) (snd kc)].

(** A call that returned nothing. *)
Definition quiet (kc : nat * completion (option Response)) : Prop :=
  snd kc = Normal None.

(** Indices, from [k] on, of the handlers declared for [ev], in
    registration order. *)
Fixpoint matching_from (k : nat) (hs : list Handler) (ev : option jsstr) : list nat :=
  match hs with
  | [] => []
  | h :: rest =>
      if strict_eqb (event h) ev then k :: matching_from (S k) rest ev
      else matching_from (S k) rest ev
  end.

Definition matching (hs : list Handler) (ev : option jsstr) : list nat :=
  matching_from 0 hs ev.

(** Calling the handlers at the indices [ks] one after the other, each on
    the world the one before left. *)
Fixpoint replay (hs : list Handler) (p : payload) (ks : list nat) (w : world)
  : world * list (nat * completion (option Response)) :=
  match ks with
  | [] => (w, [])
  | k :: ks' =>
      match nth_error hs k with
      | None => (w, [])
      | Some h =>
          let '(w1, c) := handler h p w in
          let '(w2, cs) := replay hs p ks' w1 in
          (w2, (k, c) :: cs)
      end
  end.

(** [validateSignature] returns [false] for the request's signature, body
    and event under [secret]. *)
Definition verification_fails (request : Request) (secret : option jsstr) : Prop :=
  forall w,
    outcome (validateSignature (str (signature_header request)) (text request)
                               (str secret) (str (event_header request)) w)
    = Normal false.

(** The causes of rejection as the state machine lists them. *)
Definition listed_cause (request : Request) (secret : option jsstr) : Prop :=
  event_header request = None
  \/ (configured secret /\ signature_header request = None)
  \/ (configured secret /\ verification_fails request secret).

(** The causes of rejection with a header of empty value counted as
    missing. *)
Definition rejection_cause (request : Request) (secret : option jsstr) : Prop :=
  truthy (event_header request) = false
  \/ (configured secret /\ truthy (signature_header request) = false)
  \/ (configured secret /\ verification_fails request secret).

(** A run that did not get to the try block. *)
Definition stopped_at_gate {A} (r : world * list effect * completion A) : Prop :=
  Forall (fun e => is_console e = true) (trace r).

(** What a server does with a request it passes to [handle]: the
    pipeline's response as it is, or 200 with no body when there is none. *)
Definition forwarded (request : Request) (hs : list Handler) (secret : option jsstr)
  (w : world) : world * list effect * completion Response :=
  let '(w', t, c) := handle request hs secret w in
  (w', t,
   match c with
   | Normal (Some r) => Normal r
   | Normal None => Normal (empty_response 200)
   | Throw => Throw
   end).

End Vocabulary.

(* ===================================================================== *)
(** ** Vocabulary of the further properties *)
(* ===================================================================== *)

Section MoreVocabulary.
Context {host : Host}.

Definition is_warn (e : effect) : bool :=
  match e with Warn _ => true | _ => false end.
Definition is_log (e : effect) : bool :=
  match e with Log _ _ => true | _ => false end.

(** The handlers of [hs] declared for [ev]. *)
Definition declared_for (ev : option jsstr) (hs : list Handler) : list Handler :=
  filter (fun h => strict_eqb (event h) ev) hs.

(** A response [handle] makes itself: no body and the given status. *)
Definition own_response (r : Response) : Prop :=
  r = empty_response 403 \/ r = empty_response 500.

(** What the try block of [handle] makes of the loop's completion. *)
Definition caught (c : completion (option Response)) : completion (option Response) :=
  match c with
  | Throw => Normal (Some (empty_response 500))
  | Normal r => Normal r
  end.

(** The chain [b.on(e1, h1).on(e2, h2)...] over the entries [es]. *)
Fixpoint register (es : list Handler) (b : Builder) (heap : Heap) : Heap * Builder :=
  match es with
  | [] => (heap, b)
  | e :: es' =>
      let '(heap1, b1) := on b (event e) (handler e) heap in
      register es' b1 heap1
  end.



End MoreVocabulary.

(* ===================================================================== *)
(** ** Sample host, handlers and requests *)
(* ===================================================================== *)

Module Demo.

#[warnings="-register-all"] Inductive json : Type :=
| JNull
| JBool (b : bool)
| JNum (n : Z)
| JStr (s : jsstr)
| JArr (items : list json)
| JObj (members : list (jsstr * json)).

(** [JSON.parse] restricted to the texts used below, on which it agrees
    with the real one; any other text is refused. *)
Definition parse_text (src : jsstr) : option json :=
  if str_eqb src (lit "{}") then Some (JObj [])
  else if str_eqb src (lit "[]") then Some (JArr [])
  else if str_eqb src (lit "null") then Some JNull
  else if str_eqb src (lit "true") then Some (JBool true)
  else None.

(** The world is a journal of the handlers that ran. *)
Definition host : Host :=
  {| payload := json; world := list jsstr; JSON_parse := parse_text |}.

Definition note (name : jsstr) : json -> list jsstr -> list jsstr * completion (option Response) :=
  fun _ w => (w ++ [name], Normal None).
Definition reply (name : jsstr) (r : Response)
  : json -> list jsstr -> list jsstr * completion (option Response) :=
  fun _ w => (w ++ [name], Normal (Some r)).
Definition fault (name : jsstr)
  : json -> list jsstr -> list jsstr * completion (option Response) :=
  fun _ w => (w ++ [name], Throw).

Definition on_star (name : jsstr) : @Handler host := @mkHandler host (lit "star") (note name).
Definition on_push (name : jsstr) : @Handler host := @mkHandler host (lit "push") (note name).

Definition secret : jsstr := lit "secret".

(** HMAC-SHA256 of the body [{}] under the key [secret]. *)
Definition good_signature : jsstr :=
  lit "sha256=77325902caca812dc259733aacd046b73817372c777b8d95b402647474516e13".

Definition post (hs : Headers) (src : jsstr) : Request :=
  mkRequest (lit "POST") (lit "/") hs src.

Definition star_signed : Request :=
  post [(lit "x-github-event", lit "star"); (lit "x-hub-signature-256", good_signature)]
       (lit "{}").

Definition star_unsigned : Request :=
  post [(lit "x-github-event", lit "star")] (lit "{}").

(** A handler that answers 403 itself. *)
Definition star_refuses : @Handler host :=
  @mkHandler host (lit "star") (reply (lit "refuse") (empty_response 403)).

(** A handler that answers 202 with a body. *)
Definition star_replies : @Handler host :=
  @mkHandler host (lit "star") (reply (lit "answer") (mkResponse 202 (Some (lit "ok")))).

(** A handler that throws. *)
Definition star_throws : @Handler host :=
  @mkHandler host (lit "star") (fault (lit "boom")).

(** The event header is there, with an empty value. *)
Definition empty_event : Request :=
  post [(lit "x-github-event", [])] (lit "{}").

(** A heap holding the empty array of [webhook(secret)]. *)
Definition heap0 : @Heap host := fst (@webhook host (Some secret) []).
Definition builder0 : Builder := snd (@webhook host (Some secret) []).

Definition four_handlers : list (@Handler host) :=
  [on_push (lit "p"); on_star (lit "a"); star_replies; on_star (lit "never")].

(** A body that is not JSON, correctly signed. *)
Definition star_malformed : Request :=
  post [(lit "x-github-event", lit "star");
        (lit "x-hub-signature-256",
         lit "sha256=a1af98d49ad4d3fa8ac725af8d18edb65f5c7191e9fc2796d51b05db6679f2b8")]
       (lit "{").

End Demo.

(* ===================================================================== *)
(** * Properties *)
(* ===================================================================== *)

(** ** Test vectors for the hash *)

Example sha256_abc :
  hex (SHA256.digest (lit "abc"))
  = lit "ba7816bf8f01cfea414140de5dae2223b00361a396177a9cb410ff61f20015ad".
Proof. vm_compute. reflexivity. Qed.

Example hmac_rfc4231_case2 :
  hmac (lit "Jefe") (lit "what do ya want for nothing?")
  = lit "5bdcc146bf60754e6a042426089575c75a003f089d2739839dec58b964ec3843".
Proof. vm_compute. reflexivity. Qed.

Example hmac_long_key :
  hmac (repeat 107 70) (repeat 120 130)
  = lit "65f3828fb4164fc0fce3be71ca4cf0a8915b8e484444e7765ab030abe4c28ac0".
Proof. vm_compute. reflexivity. Qed.

(** U+00E9, a lone surrogate (encoded as U+FFFD) and a surrogate pair. *)
Example hmac_non_ascii :
  hmac [0xE9; 0xD800] [0xD83D; 0xDE00]
  = lit "a24cc4643510330a8c626c5f88487a3a3d105b3a9afa7c27478fca41ed2cb3af".
Proof. vm_compute. reflexivity. Qed.

(** ** Strings and bytes *)

Lemma str_eqb_eq (a b : jsstr) : str_eqb a b = true <-> a = b.
Proof.
  revert b; induction a as [|x a IH]; intros [|y b]; simpl; split;
    try discriminate; try reflexivity.
  - intros H. apply andb_true_iff in H as [Hx Hr].
    apply Z.eqb_eq in Hx. apply IH in Hr. congruence.
  - intros H. injection H as -> ->. rewrite Z.eqb_refl. simpl. now apply IH.
Qed.


Lemma ascii_bit7 (b : Z) : ascii_unit b -> Z.testbit b 7 = false.
Proof.
  intros [Hlo Hhi]. destruct (Z.eq_dec b 0) as [->|Hnz]; [reflexivity|].
  apply Z.bits_above_log2; [lia|].
  apply Z.log2_lt_pow2; lia.
Qed.

Lemma lor_bit7 (m x : Z) : Z.testbit m 7 = true -> Z.testbit (Z.lor m x) 7 = true.
Proof. intros H. rewrite Z.lor_spec, H. reflexivity. Qed.

Lemma bytes_of_scalar_low (cp : Z) : cp < 0x80 -> Utf8.bytes_of_scalar cp = [cp].
Proof.
  intros H. unfold Utf8.bytes_of_scalar.
  destruct (Z.ltb_spec cp 0x80); [reflexivity | lia].
Qed.

Lemma bytes_of_scalar_high (cp : Z) :
  0x80 <= cp ->
  exists h t, Utf8.bytes_of_scalar cp = h :: t /\ Z.testbit h 7 = true.
Proof.
  intros H. unfold Utf8.bytes_of_scalar.
  destruct (Z.ltb_spec cp 0x80); [lia|].
  destruct (cp <? 0x800); [|destruct (cp <? 0x10000)];
    eexists; eexists; (split; [reflexivity | now apply lor_bit7]).
Qed.

(** The first scalar value of a non-empty string is its first code unit,
    unless that unit is a surrogate, and then it is not ASCII. *)
Lemma scalar_values_cons (c : Z) (r : jsstr) :
  (c < 0xD800 \/ 0xDFFF < c) /\ Utf8.scalar_values (c :: r) = c :: Utf8.scalar_values r
  \/ exists cp t, Utf8.scalar_values (c :: r) = cp :: t /\ 0x80 <= cp.
Proof.
  cbn [Utf8.scalar_values]. unfold Utf8.is_lead, Utf8.is_trail.
  destruct (Z.leb_spec 0xD800 c), (Z.leb_spec c 0xDBFF); cbn [andb].
  - right. destruct r as [|d r'].
    + exists 0xFFFD, []. split; [reflexivity | lia].
    + destruct (Z.leb_spec 0xDC00 d), (Z.leb_spec d 0xDFFF); cbn [andb];
        eexists; eexists; (split; [reflexivity | lia]).
  - destruct (Z.leb_spec 0xDC00 c), (Z.leb_spec c 0xDFFF); cbn [andb].
    + right. eexists; eexists; (split; [reflexivity | lia]).
    + left. split; [lia | reflexivity].
    + lia.
    + lia.
  - destruct (Z.leb_spec 0xDC00 c); cbn [andb]; [lia|].
    left. split; [lia | reflexivity].
  - lia.
Qed.

(** A string whose encoding is all ASCII is its own encoding. *)
Lemma encode_ascii_fixed (s : jsstr) :
  Forall ascii_unit (Utf8.encode s) -> Utf8.encode s = s.
Proof.
  unfold Utf8.encode.
  induction s as [|c r IH]; [reflexivity|].
  destruct (scalar_values_cons c r) as [[_ ->] | (cp & t & -> & Hcp)]; simpl.
  - destruct (Z.lt_ge_cases c 0x80) as [Hc | Hc].
    + rewrite (bytes_of_scalar_low _ Hc). simpl.
      intros H. inversion H; subst. f_equal. now apply IH.
    + destruct (bytes_of_scalar_high _ Hc) as (h & t & -> & Hbit). simpl.
      intros H. inversion H as [|? ? Hh _]; subst.
      apply ascii_bit7 in Hh. congruence.
  - destruct (bytes_of_scalar_high _ Hcp) as (h & t' & -> & Hbit). simpl.
    intros H. inversion H as [|? ? Hh _]; subst.
    apply ascii_bit7 in Hh. congruence.
Qed.

Lemma encode_ascii (s : jsstr) : Forall ascii_unit s -> Utf8.encode s = s.
Proof.
  unfold Utf8.encode.
  induction 1 as [|c r [Hlo Hhi] _ IH]; [reflexivity|].
  destruct (scalar_values_cons c r) as [[_ ->] | (cp & t & E & Hcp)].
  - simpl. rewrite bytes_of_scalar_low by lia. simpl. now rewrite IH.
  - exfalso. revert E. cbn [Utf8.scalar_values]. unfold Utf8.is_lead, Utf8.is_trail.
    destruct (Z.leb_spec 0xD800 c); [lia|]. cbn [andb].
    destruct (Z.leb_spec 0xDC00 c); [lia|]. cbn [andb].
    intros E. injection E as <- _. lia.
Qed.

Lemma hex_digit_ascii (v : Z) : ascii_unit (hex_digit v).
Proof.
  unfold hex_digit.
  destruct (nth_in_or_default (Z.to_nat v) (lit "0123456789abcdef") 0) as [Hin | ->].
  - revert Hin. generalize (nth (Z.to_nat v) (lit "0123456789abcdef") 0).
    intros z Hin. unfold ascii_unit.
    cbv in Hin. repeat (destruct Hin as [<- | Hin]; [lia|]). contradiction.
  - unfold ascii_unit. lia.
Qed.

Lemma hex_ascii (bs : list Z) : Forall ascii_unit (hex bs).
Proof.
  unfold hex. induction bs as [|b bs IH]; cbn [flat_map app]; [constructor|].
  constructor; [apply hex_digit_ascii|].
  constructor; [apply hex_digit_ascii | exact IH].
Qed.

Lemma expected_signature_ascii (secret body : jsstr) :
  Forall ascii_unit (expected_signature secret body).
Proof.
  unfold expected_signature. apply Forall_app. split; [|apply hex_ascii].
  cbv [lit list_ascii_of_string map N_of_ascii N_of_digits Z.of_N].
  repeat constructor; unfold ascii_unit; simpl; lia.
Qed.

(** ** The comparator *)

Lemma fold_lor_xor_zero (l : list (Z * Z)) (acc : Z) :
  fold_left (fun out ab => Z.lor out (Z.lxor (fst ab) (snd ab))) l acc = 0
  <-> acc = 0 /\ Forall (fun ab => fst ab = snd ab) l.
Proof.
  revert acc; induction l as [|[x y] l IH]; intros acc; cbn [fold_left fst snd].
  - split; [intros ->; split; [reflexivity | constructor] | now intros [-> _]].
  - rewrite IH, Z.lor_eq_0_iff, Z.lxor_eq_0_iff. split.
    + intros [[-> ->] Hl]. split; [reflexivity|]. now constructor.
    + intros [-> Hl]. inversion Hl; subst. cbn [fst snd] in *. tauto.
Qed.

Lemma combine_diagonal (a b : list Z) :
  length a = length b ->
  (Forall (fun ab => fst ab = snd ab) (combine a b) <-> a = b).
Proof.
  revert b; induction a as [|x a IH]; intros [|y b] Hlen; try discriminate.
  - split; [reflexivity | constructor].
  - cbn [combine]. injection Hlen as Hlen. split.
    + intros H. inversion H; subst. cbn [fst snd] in *. f_equal; [assumption|].
      now apply IH.
    + intros E. injection E as -> ->. constructor; [reflexivity|].
      now apply IH.
Qed.

(** [timingSafeEqual] decides equality of byte sequences. *)
Lemma timingSafeEqual_eq (a b : list Z) : timingSafeEqual a b = true <-> a = b.
Proof.
  unfold timingSafeEqual.
  destruct (Nat.eqb_spec (length a) (length b)) as [Hlen | Hlen]; cbn [negb].
  - rewrite Z.eqb_eq, fold_lor_xor_zero, combine_diagonal by assumption. tauto.
  - split; [discriminate | intros ->; contradiction].
Qed.

(** ** Signature validation *)

Section SignatureFacts.
Context {host : Host}.

(** What [validateSignature] returns, apart from its console line. *)
Lemma validateSignature_run (sig body secret ev : jsstr) (w : world) :
  exists line,
    validateSignature sig body secret ev w
    = (w, [line],
       Normal (negb (negb (length (Utf8.encode sig)
                           =? length (Utf8.encode (expected_signature secret body)))%nat
                     || negb (timingSafeEqual
                                (Utf8.encode (expected_signature secret body))
                                (Utf8.encode sig))))).
Proof.
  unfold validateSignature, hmac.
  change (lit "sha256" ++ lit "=" ++ ?x) with (lit "sha256=" ++ x).
  fold (expected_signature secret body).
  destruct (negb _ || negb _); eexists; reflexivity.
Qed.

Lemma encode_eq_expected (sig body secret : jsstr) :
  Utf8.encode (expected_signature secret body) = Utf8.encode sig
  <-> sig = expected_signature secret body.
Proof.
  pose proof (expected_signature_ascii secret body) as Hascii.
  rewrite (encode_ascii _ Hascii). split.
  - intros E. rewrite <- (encode_ascii_fixed sig); [now symmetry|].
    now rewrite <- E.
  - intros ->. now rewrite (encode_ascii _ Hascii).
Qed.

(** C1. [validateSignature(sig, B, S, e)] completes normally, and its
    value is [true] exactly when [sig] is ["sha256="] followed by the
    lowercase hex of HMAC-SHA256 keyed with [S] over [B]; when the UTF-8
    length of [sig] differs from the expected string's, the value is
    [false]. *)
Theorem validateSignature_iff_expected (sig body secret ev : jsstr) (w : world) :
  secret <> [] ->
  exists b,
    outcome (validateSignature sig body secret ev w) = Normal b
    /\ (b = true <-> sig = expected_signature secret body)
    /\ (length (Utf8.encode sig) <> length (Utf8.encode (expected_signature secret body))
        -> b = false).
Proof.
  intros _.
  destruct (validateSignature_run sig body secret ev w) as [line ->].
  eexists. split; [reflexivity|]. split.
  - rewrite negb_true_iff, orb_false_iff, !negb_false_iff.
    rewrite Nat.eqb_eq, timingSafeEqual_eq. rewrite <- encode_eq_expected.
    split; [tauto|]. intros E. rewrite E. tauto.
  - intros Hlen. apply Nat.eqb_neq in Hlen. now rewrite Hlen.
Qed.

(** C10. The event name reaches only the console line: two calls that
    differ in it alone return the same boolean. *)
Theorem validateSignature_event_irrelevant (sig body secret e1 e2 : jsstr) (w : world) :
  outcome (validateSignature sig body secret e1 w)
  = outcome (validateSignature sig body secret e2 w)
  /\ final (validateSignature sig body secret e1 w)
     = final (validateSignature sig body secret e2 w).
Proof.
  destruct (validateSignature_run sig body secret e1 w) as [l1 ->].
  destruct (validateSignature_run sig body secret e2 w) as [l2 ->].
  split; reflexivity.
Qed.

End SignatureFacts.

(** ** The guard of [handle] *)

Section GateFacts.
Context {host : Host}.

Lemma validateSignature_value (sig body secret ev : jsstr) (w : world) :
  validateSignature sig body secret ev w
  = (w,
     [if str_eqb sig (expected_signature secret body) then ok_line ev else fail_line ev],
     Normal (str_eqb sig (expected_signature secret body))).
Proof.
  assert (E : negb (length (Utf8.encode sig)
                    =? length (Utf8.encode (expected_signature secret body)))%nat
              || negb (timingSafeEqual (Utf8.encode (expected_signature secret body))
                                       (Utf8.encode sig))
              = negb (str_eqb sig (expected_signature secret body))).
  { destruct (str_eqb sig (expected_signature secret body)) eqn:Es.
    - apply str_eqb_eq in Es. subst sig.
      rewrite Nat.eqb_refl. cbn [negb orb].
      now rewrite (proj2 (timingSafeEqual_eq _ _) eq_refl).
    - cbn [negb]. apply orb_true_iff.
      destruct (timingSafeEqual _ _) eqn:Et; [|now right].
      apply timingSafeEqual_eq, encode_eq_expected, str_eqb_eq in Et. congruence. }
  unfold validateSignature, hmac.
  change (lit "sha256" ++ lit "=" ++ ?x) with (lit "sha256=" ++ x).
  fold (expected_signature secret body).
  rewrite E. destruct (str_eqb sig (expected_signature secret body)); reflexivity.
Qed.

Lemma parseHeaders_run (hs : Headers) (w : world) :
  parseHeaders hs w
  = (w,
     (if truthy (Headers_get hs (lit "x-github-event")) then []
      else [Warn (not_found (lit "x-github-event"))])
     ++ (if truthy (Headers_get hs (lit "x-hub-signature-256")) then []
         else [Warn (not_found (lit "x-hub-signature-256"))]),
     Normal (Headers_get hs (lit "x-github-event"),
             Headers_get hs (lit "x-hub-signature-256"))).
Proof.
  unfold parseHeaders, bind, when, emit, ret.
  destruct (truthy (Headers_get hs (lit "x-github-event")));
    destruct (truthy (Headers_get hs (lit "x-hub-signature-256"))); reflexivity.
Qed.

Lemma denied_run (ev sg : option jsstr) (src : jsstr) (secret : option jsstr) (w : world) :
  denied ev sg src secret w
  = (w,
     (if truthy ev && truthy secret && truthy sg
      then [if str_eqb (str sg) (expected_signature (str secret) src)
            then ok_line (str ev) else fail_line (str ev)]
      else []),
     Normal (negb (truthy ev
                   && (negb (truthy secret)
                       || (truthy sg
                           && str_eqb (str sg) (expected_signature (str secret) src)))))).
Proof.
  unfold denied, orM, andM, bind, ret.
  destruct (truthy ev), (truthy secret), (truthy sg); cbn [negb andb orb];
    try reflexivity.
  rewrite validateSignature_value.
  destruct (str_eqb _ _); reflexivity.
Qed.

Lemma handle_run (request : Request) (hs : list Handler) (secret : option jsstr)
  (w : world) :
  handle request hs secret w
  = if authorized request secret then
      let '(w', t, c) :=
        try_catch (p <- parse (text request) ;; dispatch 0 hs (event_header request) p)
                  (ret (Some (empty_response 500))) w in
      (w', gate_trace request secret ++ t, c)
    else (w, gate_trace request secret, Normal (Some (empty_response 403))).
Proof.
  unfold handle. unfold bind at 1. rewrite parseHeaders_run.
  unfold bind at 1. rewrite denied_run.
  unfold authorized, gate_trace, event_header, signature_header.
  destruct (truthy (Headers_get (headers request) (lit "x-github-event"))
            && (negb (truthy secret)
                || truthy (Headers_get (headers request) (lit "x-hub-signature-256"))
                   && str_eqb _ _)); cbn [negb].
  - destruct (try_catch _ _ w) as [[w' t] c]. now rewrite <- !app_assoc.
  - unfold ret. now rewrite app_nil_r, <- !app_assoc.
Qed.

End GateFacts.

(** ** The try block: decoding and the handler loop *)

Section DispatchFacts.
Context {host : Host}.

Lemma dispatch_skip (k : nat) (h : Handler) (rest : list Handler) (ev : option jsstr)
  (p : payload) (w : world) :
  strict_eqb (event h) ev = false ->
  dispatch k (h :: rest) ev p w = dispatch (S k) rest ev p w.
Proof. intros E. cbn [dispatch]. now rewrite E. Qed.

Lemma dispatch_hit (k : nat) (h : Handler) (rest : list Handler) (ev : option jsstr)
  (p : payload) (w : world) :
  strict_eqb (event h) ev = true ->
  dispatch k (h :: rest) ev p w
  = match handler h p w with
    | (w1, Normal None) =>
        let '(w2, t2, c2) := dispatch (S k) rest ev p w1 in
        (w2, Invoke k p :: Settle k (Normal None) :: t2, c2)
    | (w1, Normal (Some r)) =>
        (w1, [Invoke k p; Settle k (Normal (Some r))], Normal (Some r))
    | (w1, Throw) => (w1, [Invoke k p; Settle k Throw], Throw)
    end.
Proof.
  intros E. cbn [dispatch]. rewrite E.
  unfold invoke, bind, emit, ret, throw.
  destruct (handler h p w) as [w1 [[r|]|]]; reflexivity.
Qed.

Lemma body_run (src : jsstr) (hs : list Handler) (ev : option jsstr) (w : world) :
  try_catch (p <- parse src ;; dispatch 0 hs ev p) (ret (Some (empty_response 500))) w
  = match JSON_parse src with
    | None => (w, [Parse src], Normal (Some (empty_response 500)))
    | Some p =>
        let '(w', t, c) := dispatch 0 hs ev p w in
        (w', Parse src :: t,
         match c with
         | Throw => Normal (Some (empty_response 500))
         | Normal r => Normal r
         end)
    end.
Proof.
  unfold try_catch, parse, bind, emit, ret, throw.
  destruct (JSON_parse src) as [p|]; cbn [app]; [|reflexivity].
  destruct (dispatch 0 hs ev p w) as [[w' t] [r|]]; cbn [app];
    [reflexivity | now rewrite app_nil_r].
Qed.

(** The loop performs handler steps only, two per call. *)
Lemma dispatch_trace (hs : list Handler) (ev : option jsstr) (p : payload) :
  forall k w,
    trace (dispatch k hs ev p w)
    = flat_map (steps p) (settled (trace (dispatch k hs ev p w))).
Proof.
  induction hs as [|h rest IH]; intros k w; [reflexivity|].
  destruct (strict_eqb (event h) ev) eqn:E.
  - rewrite (dispatch_hit _ _ _ _ _ _ E).
    destruct (handler h p w) as [w1 [[r|]|]]; try reflexivity.
    specialize (IH (S k) w1).
    destruct (dispatch (S k) rest ev p w1) as [[w2 t2] c2].
    unfold trace in *. cbn [fst snd settled flat_map steps app] in *.
    now rewrite <- IH.
  - rewrite (dispatch_skip _ _ _ _ _ _ E). apply IH.
Qed.

(** The calls made are an initial part of the matching handlers, in
    registration order. *)
Lemma dispatch_order (hs : list Handler) (ev : option jsstr) (p : payload) :
  forall k w,
    exists later,
      matching_from k hs ev
      = map fst (settled (trace (dispatch k hs ev p w))) ++ later.
Proof.
  induction hs as [|h rest IH]; intros k w; [now exists []|].
  cbn [matching_from].
  destruct (strict_eqb (event h) ev) eqn:E.
  - rewrite (dispatch_hit _ _ _ _ _ _ E).
    destruct (handler h p w) as [w1 [[r|]|]];
      try (eexists; unfold trace; cbn [fst snd settled map app]; reflexivity).
    destruct (IH (S k) w1) as [later Hl].
    destruct (dispatch (S k) rest ev p w1) as [[w2 t2] c2].
    exists later. unfold trace in *. cbn [fst snd settled map app] in *.
    now rewrite Hl.
  - rewrite (dispatch_skip _ _ _ _ _ _ E). apply IH.
Qed.

(** How the loop ends: off the end of the list after calls that all
    returned nothing, or at the first call that returned a response, or
    at the first call that threw. *)
Lemma dispatch_end (hs : list Handler) (ev : option jsstr) (p : payload) :
  forall k w,
    let r := dispatch k hs ev p w in
    let cs := settled (trace r) in
    (outcome r = Normal None /\ Forall quiet cs /\ map fst cs = matching_from k hs ev)
    \/ (exists cs' k' resp,
          cs = cs' ++ [(k', Normal (Some resp))] /\ Forall quiet cs'
          /\ outcome r = Normal (Some resp))
    \/ (exists cs' k',
          cs = cs' ++ [(k', Throw)] /\ Forall quiet cs' /\ outcome r = Throw).
Proof.
  induction hs as [|h rest IH]; intros k w; cbn zeta.
  - left. repeat split. constructor.
  - cbn [matching_from].
    destruct (strict_eqb (event h) ev) eqn:E.
    + rewrite (dispatch_hit _ _ _ _ _ _ E).
      destruct (handler h p w) as [w1 [[resp|]|]].
      * right; left. exists [], k, resp. repeat split. constructor.
      * specialize (IH (S k) w1). cbn zeta in IH.
        destruct (dispatch (S k) rest ev p w1) as [[w2 t2] c2].
        unfold trace, outcome in *. cbn [fst snd settled] in *.
        destruct IH as [(Ho & Hq & Hm) | [(cs' & k' & resp & Hc & Hq & Ho)
                                         | (cs' & k' & Hc & Hq & Ho)]].
        -- left. repeat split; [assumption | | cbn [map fst]; now rewrite Hm].
           constructor; [reflexivity | assumption].
        -- right; left. exists ((k, Normal None) :: cs'), k', resp.
           rewrite Hc. repeat split; [|assumption].
           constructor; [reflexivity | assumption].
        -- right; right. exists ((k, Normal None) :: cs'), k'.
           rewrite Hc. repeat split; [|assumption].
           constructor; [reflexivity | assumption].
      * right; right. exists [], k. repeat split. constructor.
    + rewrite (dispatch_skip _ _ _ _ _ _ E). apply IH.
Qed.

(** With no handler declared for the event the loop does nothing. *)
Lemma dispatch_unmatched (hs : list Handler) (ev : option jsstr) (p : payload) :
  forall k w, matching_from k hs ev = [] -> dispatch k hs ev p w = (w, [], Normal None).
Proof.
  induction hs as [|h rest IH]; intros k w Hm; [reflexivity|].
  cbn [matching_from] in Hm.
  destruct (strict_eqb (event h) ev) eqn:E; [discriminate|].
  rewrite (dispatch_skip _ _ _ _ _ _ E). now apply IH.
Qed.

(** The calls are the handlers at those indices run one after the other,
    each on the world its predecessor left. *)
Lemma dispatch_replay (all : list Handler) (ev : option jsstr) (p : payload) :
  forall hs before k w,
    all = before ++ hs -> length before = k ->
    let r := dispatch k hs ev p w in
    replay all p (map fst (settled (trace r))) w = (final r, settled (trace r)).
Proof.
  induction hs as [|h rest IH]; intros before k w Hall Hk; cbn zeta; [reflexivity|].
  assert (Hnext : all = (before ++ [h]) ++ rest) by now rewrite <- app_assoc.
  assert (Hlen : length (before ++ [h]) = S k)
    by (rewrite length_app; cbn [length]; lia).
  assert (Hnth : nth_error all k = Some h).
  { rewrite Hall, nth_error_app2 by lia.
    replace (k - length before)%nat with 0%nat by lia. reflexivity. }
  destruct (strict_eqb (event h) ev) eqn:E.
  - rewrite (dispatch_hit _ _ _ _ _ _ E).
    destruct (handler h p w) as [w1 [[resp|]|]] eqn:Eh;
      try (unfold trace, final; cbn [fst snd settled map replay];
           rewrite Hnth, Eh; reflexivity).
    specialize (IH _ _ w1 Hnext Hlen). cbn zeta in IH.
    destruct (dispatch (S k) rest ev p w1) as [[w2 t2] c2].
    unfold trace, final in *. cbn [fst snd settled map replay] in *.
    now rewrite Hnth, Eh, IH.
  - rewrite (dispatch_skip _ _ _ _ _ _ E). now apply (IH (before ++ [h])).
Qed.

End DispatchFacts.

(** ** The pipeline *)

Section HandleFacts.
Context {host : Host}.

Lemma gate_trace_console (request : Request) (secret : option jsstr) :
  Forall (fun e => is_console e = true) (gate_trace request secret).
Proof.
  unfold gate_trace.
  apply Forall_app; split; [|apply Forall_app; split];
    repeat match goal with |- context [if ?b then _ else _] => destruct b end;
    repeat constructor.
Qed.

Lemma settled_app (t1 t2 : list effect) : settled (t1 ++ t2) = settled t1 ++ settled t2.
Proof.
  induction t1 as [|e t1 IH]; [reflexivity|].
  destruct e; cbn [app settled]; now rewrite IH.
Qed.

Lemma settled_console (t : list effect) :
  Forall (fun e => is_console e = true) t -> settled t = [].
Proof.
  induction 1 as [|e t He _ IH]; [reflexivity|].
  destruct e; try discriminate; exact IH.
Qed.

Lemma settled_in (t : list effect) (k : nat) (c : completion (option Response)) :
  In (Settle k c) t <-> In (k, c) (settled t).
Proof.
  induction t as [|e t IH]; [reflexivity|].
  destruct e; cbn [settled In]; rewrite IH;
    try (split; [intros [H|H]; [discriminate | assumption] | now right]).
  split; (intros [H|H]; [left; congruence | now right]).
Qed.

Lemma truthy_some (v : option jsstr) : truthy v = true -> v = Some (str v) /\ str v <> [].
Proof. destruct v as [[|c s]|]; try discriminate. now split. Qed.

Lemma configured_truthy (secret : option jsstr) : configured secret <-> truthy secret = true.
Proof.
  split.
  - intros (s & -> & Hs). destruct s; [contradiction | reflexivity].
  - intros H. apply truthy_some in H as [E Hs]. now exists (str secret).
Qed.

Lemma verification_fails_iff (request : Request) (secret : option jsstr) :
  world ->
  verification_fails request secret
  <-> str_eqb (str (signature_header request))
              (expected_signature (str secret) (text request)) = false.
Proof.
  intros w0. unfold verification_fails. split.
  - intros H. specialize (H w0). rewrite validateSignature_value in H.
    unfold outcome in H. cbn [snd] in H. congruence.
  - intros E w. rewrite validateSignature_value, E. reflexivity.
Qed.

Lemma authorized_false_iff (request : Request) (secret : option jsstr) :
  world ->
  authorized request secret = false <-> rejection_cause request secret.
Proof.
  intros w0. unfold authorized, rejection_cause.
  rewrite configured_truthy, (verification_fails_iff _ _ w0).
  destruct (truthy (event_header request)), (truthy secret),
    (truthy (signature_header request)) eqn:Esg, (str_eqb _ _) eqn:Ev;
    cbn [negb andb orb]; intuition congruence.
Qed.

(** An unauthorized request is answered 403 at the guard. *)
Lemma handle_unauthorized (request : Request) (hs : list Handler)
  (secret : option jsstr) (w : world) :
  authorized request secret = false ->
  handle request hs secret w
  = (w, gate_trace request secret, Normal (Some (empty_response 403))).
Proof. intros E. now rewrite handle_run, E. Qed.

(** An authorized request enters the try block, which starts by decoding. *)
Lemma handle_authorized (request : Request) (hs : list Handler)
  (secret : option jsstr) (w : world) :
  authorized request secret = true ->
  handle request hs secret w
  = match JSON_parse (text request) with
    | None =>
        (w, gate_trace request secret ++ [Parse (text request)],
         Normal (Some (empty_response 500)))
    | Some p =>
        let '(w', t, c) := dispatch 0 hs (event_header request) p w in
        (w', gate_trace request secret ++ Parse (text request) :: t,
         match c with
         | Throw => Normal (Some (empty_response 500))
         | Normal r => Normal r
         end)
    end.
Proof.
  intros E. rewrite handle_run, E, body_run.
  destruct (JSON_parse (text request)) as [p|]; [|reflexivity].
  now destruct (dispatch 0 hs (event_header request) p w) as [[w' t] c].
Qed.

Lemma authorized_not_at_gate (request : Request) (hs : list Handler)
  (secret : option jsstr) (w : world) :
  authorized request secret = true ->
  ~ stopped_at_gate (handle request hs secret w).
Proof.
  intros E. rewrite (handle_authorized _ _ _ _ E). unfold stopped_at_gate.
  assert (Hp : forall t1 t2,
             ~ Forall (fun e => is_console e = true) (t1 ++ Parse (text request) :: t2)).
  { intros t1 t2 H. apply Forall_app in H as [_ H]. inversion H. discriminate. }
  destruct (JSON_parse (text request)) as [p|]; [|apply Hp].
  destruct (dispatch 0 hs (event_header request) p w) as [[w' t] c]. apply Hp.
Qed.

End HandleFacts.

Section PipelineClaims.
Context {host : Host}.

(** C2. With a secret configured, every [JSON.parse] and every handler
    step of a run of [handle] comes after the [crypto: ok] line of a
    [validateSignature] call that returned [true] on the request's own
    signature and body; and a request whose signature is missing or does
    not verify reaches neither: its run performs console output only and
    leaves the world as it was. *)
Theorem verification_precedes_dispatch (request : Request) (hs : list Handler)
  (sec : jsstr) (w : world) :
  sec <> [] ->
  let r := handle request hs (Some sec) w in
  (forall before e after,
      trace r = before ++ e :: after ->
      is_parse e || is_handler_step e = true ->
      exists sig ev,
        signature_header request = Some sig
        /\ event_header request = Some ev
        /\ outcome (validateSignature sig (text request) sec ev w) = Normal true
        /\ In (ok_line ev) before)
  /\ (truthy (signature_header request) = false
      \/ verification_fails request (Some sec) ->
      Forall (fun e => is_parse e || is_handler_step e = false) (trace r)
      /\ final r = w).
Proof.
  intros Hsec r.
  assert (Hts : truthy (Some sec) = true) by (destruct sec; [contradiction | reflexivity]).
  assert (Hconsole : forall t, Forall (fun e => is_console e = true) t ->
                               Forall (fun e => is_parse e || is_handler_step e = false) t).
  { intros t Ht. eapply Forall_impl; [|exact Ht].
    intros []; cbn; congruence. }
  split.
  - intros before e after Htr He.
    destruct (authorized request (Some sec)) eqn:Ea.
    + pose proof Ea as Ea'. unfold authorized in Ea'. rewrite Hts in Ea'.
      cbn [negb orb] in Ea'.
      apply andb_true_iff in Ea' as [Hev Ea'].
      apply andb_true_iff in Ea' as [Hsg Hv].
      assert (Eg : gate_trace request (Some sec)
                   = [ok_line (str (event_header request))]).
      { unfold gate_trace. rewrite Hev, Hsg, Hts. cbn [andb app]. now rewrite Hv. }
      assert (Ht : exists t, trace r = ok_line (str (event_header request)) :: t).
      { subst r. rewrite handle_run, Ea, Eg.
        destruct (try_catch _ _ w) as [[w' t] c]. now exists t. }
      destruct Ht as [t Ht]. rewrite Ht in Htr.
      exists (str (signature_header request)), (str (event_header request)).
      split; [now apply truthy_some|]. split; [now apply truthy_some|]. split.
      * rewrite validateSignature_value. cbn [str] in Hv. now rewrite Hv.
      * destruct before as [|b before'].
        -- injection Htr as <- _. discriminate.
        -- injection Htr as <- _. now left.
    + subst r. rewrite (handle_unauthorized _ _ _ _ Ea) in Htr.
      unfold trace in Htr. cbn [fst snd] in Htr.
      pose proof (Hconsole _ (gate_trace_console request (Some sec))) as Hg.
      rewrite Htr in Hg. apply Forall_app in Hg as [_ Hg].
      inversion Hg; subst. congruence.
  - intros Hno.
    assert (Ea : authorized request (Some sec) = false).
    { apply (authorized_false_iff _ _ w). right.
      destruct Hno as [Hs | Hv]; [left | right];
        (split; [now apply configured_truthy | assumption]). }
    subst r. rewrite (handle_unauthorized _ _ _ _ Ea).
    split; [|reflexivity].
    apply Hconsole, gate_trace_console.
Qed.

(** C3, as amended. [handle] stops at its guard, answering 403 with no
    body before any decoding, exactly when the event header is missing or
    empty, or a secret is configured and the signature header is missing
    or empty, or a secret is configured and verification returns [false].
    In particular a configured secret and no signature header give 403
    whatever the event header and the body are. *)
Theorem rejection_iff_cause (request : Request) (hs : list Handler)
  (secret : option jsstr) (w : world) :
  let r := handle request hs secret w in
  (outcome r = Normal (Some (empty_response 403)) /\ stopped_at_gate r
   <-> rejection_cause request secret)
  /\ (configured secret -> signature_header request = None ->
      outcome r = Normal (Some (empty_response 403)) /\ final r = w).
Proof.
  intros r. split; [split|].
  - intros [_ Hgate].
    apply (authorized_false_iff _ _ w).
    destruct (authorized request secret) eqn:Ea; [|reflexivity].
    exfalso. now apply (authorized_not_at_gate request hs secret w Ea).
  - intros Hc. apply (authorized_false_iff _ _ w) in Hc.
    subst r. rewrite (handle_unauthorized _ _ _ _ Hc).
    split; [reflexivity | apply gate_trace_console].
  - intros Hconf Hsig.
    assert (Ea : authorized request secret = false).
    { apply (authorized_false_iff _ _ w). right; left.
      split; [assumption | now rewrite Hsig]. }
    subst r. now rewrite (handle_unauthorized _ _ _ _ Ea).
Qed.

(** C9. The empty string as secret behaves as no secret: same result,
    same effects, same world, whatever the signature header says. *)
Theorem empty_secret_is_no_secret (request : Request) (hs : list Handler) (w : world) :
  handle request hs (Some []) w = handle request hs None w.
Proof. rewrite !handle_run. reflexivity. Qed.

(** C5. [handle] always completes normally; and for an authorized
    request, a body that does not parse and a handler that throws both
    end in the same response, 500 with no body. *)
Theorem faults_become_500 (request : Request) (hs : list Handler)
  (secret : option jsstr) (w : world) :
  let r := handle request hs secret w in
  (exists res, outcome r = Normal res)
  /\ (authorized request secret = true ->
      JSON_parse (text request) = None \/ (exists k, In (Settle k Throw) (trace r)) ->
      outcome r = Normal (Some (empty_response 500))).
Proof.
  intros r. split.
  - subst r. rewrite handle_run, body_run.
    destruct (authorized request secret); [|eexists; reflexivity].
    destruct (JSON_parse (text request)) as [p|]; [|eexists; reflexivity].
    destruct (dispatch 0 hs (event_header request) p w) as [[w' t] [res|]];
      eexists; reflexivity.
  - intros Ea Hfault. subst r. rewrite (handle_authorized _ _ _ _ Ea) in *.
    destruct (JSON_parse (text request)) as [p|]; [|reflexivity].
    destruct Hfault as [Hp | [k Hk]]; [discriminate|].
    pose proof (dispatch_end hs (event_header request) p 0 w) as Hend. cbn zeta in Hend.
    destruct (dispatch 0 hs (event_header request) p w) as [[w' t] c].
    unfold trace, outcome in *. cbn [fst snd] in *.
    apply settled_in in Hk. rewrite settled_app in Hk.
    rewrite (settled_console _ (gate_trace_console request secret)) in Hk.
    cbn [app settled] in Hk.
    destruct Hend as [(_ & Hq & _) | [(cs' & k' & resp & Hc & Hq & _) | (_ & _ & _ & _ & ->)]];
      [| |reflexivity]; exfalso.
    + rewrite Forall_forall in Hq. specialize (Hq _ Hk). discriminate.
    + rewrite Hc in Hk. apply in_app_or in Hk as [Hk | [Hk | []]]; [|discriminate].
      rewrite Forall_forall in Hq. specialize (Hq _ Hk). discriminate.
Qed.

End PipelineClaims.

Section DispatchClaims.
Context {host : Host}.

Lemma filter_console (t : list effect) :
  Forall (fun e => is_console e = true) t -> filter is_handler_step t = [].
Proof.
  induction 1 as [|e t He _ IH]; [reflexivity|].
  destruct e; try discriminate; exact IH.
Qed.

Lemma filter_steps (p : payload) (cs : list (nat * completion (option Response))) :
  filter is_handler_step (flat_map (steps p) cs) = flat_map (steps p) cs.
Proof.
  induction cs as [|kc cs IH]; [reflexivity|].
  cbn [flat_map steps app filter is_handler_step]. now rewrite IH.
Qed.

(** In a list that ends with its only non-quiet call, a non-quiet call is
    the last one. *)
Lemma loud_call_is_last (cs' : list (nat * completion (option Response)))
  (x y : nat * completion (option Response)) :
  Forall quiet cs' -> ~ quiet y ->
  forall before after, cs' ++ [x] = before ++ y :: after -> after = [] /\ y = x.
Proof.
  intros Hq Hy. induction Hq as [|q cs'' Hq0 _ IH]; intros before after E.
  - destruct before as [|b before']; cbn [app] in E.
    + injection E as <- <-. now split.
    + injection E as _ E. now destruct before'.
  - destruct before as [|b before']; cbn [app] in E.
    + injection E as <- _. contradiction.
    + injection E as _ E. now apply (IH before').
Qed.

(** C4. For an authorized request whose body decodes to [p]: the handler
    steps of the run are, call after call, an entry into a handler with
    [p] followed by its settling; the handlers called are an initial part
    of those declared for the inbound event, in registration order, so no
    handler declared for another event is called; each runs on the world
    its predecessor left; a call that returns a response is the last call
    and its response is the result of [handle]; and when every call
    returns nothing, every matching handler was called and the result is
    absent. *)
Theorem handlers_run_in_order (request : Request) (hs : list Handler)
  (secret : option jsstr) (w : world) (p : payload) :
  authorized request secret = true ->
  JSON_parse (text request) = Some p ->
  let r := handle request hs secret w in
  let cs := settled (trace r) in
  filter is_handler_step (trace r) = flat_map (steps p) cs
  /\ (exists later, matching hs (event_header request) = map fst cs ++ later)
  /\ replay hs p (map fst cs) w = (final r, cs)
  /\ (forall before k resp after,
         cs = before ++ (k, Normal (Some resp)) :: after ->
         after = [] /\ outcome r = Normal (Some resp))
  /\ (Forall quiet cs ->
      map fst cs = matching hs (event_header request) /\ outcome r = Normal None).
Proof.
  intros Ea Hp r cs. subst cs r.
  rewrite (handle_authorized _ _ _ _ Ea), Hp.
  pose proof (dispatch_trace hs (event_header request) p 0 w) as Htr.
  pose proof (dispatch_order hs (event_header request) p 0 w) as Hord.
  pose proof (dispatch_end hs (event_header request) p 0 w) as Hend.
  pose proof (dispatch_replay hs (event_header request) p hs [] 0 w eq_refl eq_refl)
    as Hrep.
  cbn zeta in Hend, Hrep.
  destruct (dispatch 0 hs (event_header request) p w) as [[w' t] c].
  unfold trace, final, outcome in *. cbn [fst snd] in *.
  assert (Es : settled (gate_trace request secret ++ Parse (text request) :: t)
               = settled t).
  { rewrite settled_app, (settled_console _ (gate_trace_console request secret)).
    reflexivity. }
  rewrite Es. repeat split.
  - rewrite filter_app, (filter_console _ (gate_trace_console request secret)).
    cbn [app filter is_handler_step]. rewrite Htr at 1. apply filter_steps.
  - exact Hord.
  - exact Hrep.
  - destruct Hend as [(_ & Hq & _) | [(cs' & k' & r' & Hc & Hq & _) | (cs' & k' & Hc & Hq & _)]].
    + rewrite H in Hq. apply Forall_app in Hq as [_ Hq]. inversion Hq; subst. discriminate.
    + rewrite Hc in H.
      now apply (loud_call_is_last cs' _ (k, Normal (Some resp)) Hq) in H as [-> _].
    + rewrite Hc in H.
      now apply (loud_call_is_last cs' _ (k, Normal (Some resp)) Hq) in H as [-> _].
  - destruct Hend as [(_ & Hq & _) | [(cs' & k' & r' & Hc & Hq & Ho) | (cs' & k' & Hc & Hq & _)]].
    + rewrite H in Hq. apply Forall_app in Hq as [_ Hq]. inversion Hq; subst. discriminate.
    + rewrite Hc in H.
      apply (loud_call_is_last cs' _ (k, Normal (Some resp)) Hq) in H as [_ E];
        [|discriminate].
      injection E as _ <-. now rewrite Ho.
    + rewrite Hc in H.
      apply (loud_call_is_last cs' _ (k, Normal (Some resp)) Hq) in H as [_ E];
        [discriminate | discriminate].
  - destruct Hend as [(_ & _ & Hm) | [(cs' & k' & r' & Hc & _) | (cs' & k' & Hc & _)]];
      [exact Hm | |]; exfalso; rewrite Hc in H;
      apply Forall_app in H as [_ H]; inversion H; subst; discriminate.
  - destruct Hend as [(-> & _) | [(cs' & k' & r' & Hc & _) | (cs' & k' & Hc & _)]];
      [reflexivity | |]; exfalso; rewrite Hc in H;
      apply Forall_app in H as [_ H]; inversion H; subst; discriminate.
Qed.

(** C7, as amended. When no handler is declared for the inbound event, an
    authorized request with a body that decodes completes with an absent
    result: no handler is called and the world is unchanged. *)
Theorem unmatched_event_is_absent (request : Request) (hs : list Handler)
  (secret : option jsstr) (w : world) :
  authorized request secret = true ->
  JSON_parse (text request) <> None ->
  matching hs (event_header request) = [] ->
  let r := handle request hs secret w in
  outcome r = Normal None /\ settled (trace r) = [] /\ final r = w
  /\ Forall (fun e => is_handler_step e = false) (trace r).
Proof.
  intros Ea Hp Hm. cbn zeta.
  rewrite (handle_authorized _ _ _ _ Ea).
  destruct (JSON_parse (text request)) as [p|]; [clear Hp | contradiction].
  rewrite (dispatch_unmatched hs (event_header request) p 0 w Hm).
  unfold outcome, trace, final. cbn [fst snd].
  rewrite settled_app, (settled_console _ (gate_trace_console request secret)).
  repeat split.
  apply Forall_app. split.
  - eapply Forall_impl; [|apply gate_trace_console]. now intros [].
  - repeat constructor.
Qed.

End DispatchClaims.

(** ** The builder *)

Section BuilderFacts.
Context {host : Host}.

Lemma array_at_old (heap : Heap) (a : list Handler) (r : nat) :
  (r < length heap)%nat -> array_at (heap ++ [a]) r = array_at heap r.
Proof. intros H. unfold array_at. now apply app_nth1. Qed.

Lemma array_at_new (heap : Heap) (a : list Handler) :
  array_at (heap ++ [a]) (length heap) = a.
Proof. unfold array_at. now rewrite nth_middle. Qed.

(** [on] allocates; it writes to no array that exists. *)
Lemma on_frame (b : Builder) (ev : jsstr)
  (h : payload -> world -> world * completion (option Response)) (heap : Heap) (r : nat) :
  (r < length heap)%nat -> array_at (fst (on b ev h heap)) r = array_at heap r.
Proof. intros H. unfold on, alloc. cbn [fst]. now apply array_at_old. Qed.

Lemma on_result (b : Builder) (ev : jsstr)
  (h : payload -> world -> world * completion (option Response)) (heap : Heap) :
  array_at (fst (on b ev h heap)) (builder_handlers (snd (on b ev h heap)))
  = array_at heap (builder_handlers b) ++ [mkHandler ev h]
  /\ builder_secret (snd (on b ev h heap)) = builder_secret b
  /\ (builder_handlers (snd (on b ev h heap)) < length (fst (on b ev h heap)))%nat
  /\ (length heap < length (fst (on b ev h heap)))%nat.
Proof.
  unfold on, alloc, webhookBuilder. cbn [fst snd builder_handlers builder_secret].
  rewrite array_at_new, length_app. cbn [length]. repeat split; lia.
Qed.

(** C8. [b.on(event, handler)] returns a builder over [b]'s handlers with
    the new entry at the end and with [b]'s secret, and leaves [b] as it
    was: [b]'s array is unchanged and [b.handle] behaves as before. A
    second [on] from the same [b] gets its own sequence and leaves the
    first branch as it was. *)
Theorem on_appends_and_preserves (b : Builder) (ev : jsstr)
  (h : payload -> world -> world * completion (option Response)) (heap : Heap) :
  (builder_handlers b < length heap)%nat ->
  let heap1 := fst (on b ev h heap) in
  let b1 := snd (on b ev h heap) in
  array_at heap1 (builder_handlers b1) = array_at heap (builder_handlers b) ++ [mkHandler ev h]
  /\ builder_secret b1 = builder_secret b
  /\ array_at heap1 (builder_handlers b) = array_at heap (builder_handlers b)
  /\ (forall request, builder_handle b request heap1 = builder_handle b request heap)
  /\ (forall ev' h',
         let heap2 := fst (on b ev' h' heap1) in
         let b2 := snd (on b ev' h' heap1) in
         array_at heap2 (builder_handlers b2)
         = array_at heap (builder_handlers b) ++ [mkHandler ev' h']
         /\ array_at heap2 (builder_handlers b1)
            = array_at heap (builder_handlers b) ++ [mkHandler ev h]
         /\ (forall request,
                builder_handle b1 request heap2 = builder_handle b1 request heap1)).
Proof.
  intros Hb heap1 b1.
  destruct (on_result b ev h heap) as (Hnew & Hsec & Hb1 & Hgrow).
  fold heap1 b1 in Hnew, Hsec, Hb1, Hgrow.
  assert (Hold : array_at heap1 (builder_handlers b) = array_at heap (builder_handlers b))
    by now apply on_frame.
  repeat split; try assumption.
  - intros request. unfold builder_handle. now rewrite Hold.
  - destruct (on_result b ev' h' heap1) as (Hnew' & _). now rewrite Hnew', Hold.
  - now rewrite on_frame.
  - intros request. unfold builder_handle. now rewrite on_frame.
Qed.

End BuilderFacts.

(** ** The listener *)

Section ListenerFacts.
Context {host : Host}.

Lemma DenoLand_server_run (port : Z) (pathname : jsstr) (hs : list Handler)
  (secret : option jsstr) (request : Request) (w : world) :
  DenoLand.server port pathname hs secret request w
  = if str_eqb (method request) (lit "POST") && str_eqb (url_pathname request) pathname
    then forwarded request hs secret w
    else (w, [], Normal (empty_response 404)).
Proof.
  unfold DenoLand.server, forwarded.
  destruct (str_eqb (method request) (lit "POST")); [|reflexivity].
  destruct (str_eqb (url_pathname request) pathname); [|reflexivity].
  cbn [andb]. unfold bind, ret.
  destruct (handle request hs secret w) as [[w' t] [[r|]|]];
    now rewrite ?app_nil_r.
Qed.

Lemma Jsr_server_run (port : Z) (pathname : jsstr) (hs : list Handler)
  (secret : option jsstr) (request : Request) (w : world) :
  Jsr.server port pathname hs secret request w
  = if str_eqb (method request) (lit "POST")
       && str_eqb (Jsr.or_root (url_pathname request)) (Jsr.or_root pathname)
    then forwarded request hs secret w
    else (w, [], Normal (empty_response 404)).
Proof.
  unfold Jsr.server, forwarded.
  destruct (str_eqb (method request) (lit "POST")); [|reflexivity].
  destruct (str_eqb (Jsr.or_root (url_pathname request)) (Jsr.or_root pathname));
    [|reflexivity].
  cbn [andb]. unfold bind, ret.
  destruct (handle request hs secret w) as [[w' t] [[r|]|]];
    now rewrite ?app_nil_r.
Qed.



(** With a path token given, the two servers are one. *)
Lemma servers_agree_on_given_path (port : Z) (token : jsstr) (hs : list Handler)
  (secret : option jsstr) (request : Request) (w : world) :
  token <> [] -> url_pathname request <> [] ->
  DenoLand.server port token hs secret request w
  = Jsr.server port token hs secret request w.
Proof.
  intros Ht Hp. rewrite DenoLand_server_run, Jsr_server_run.
  destruct token; [contradiction|].
  destruct (url_pathname request); [contradiction | reflexivity].
Qed.

(** C6 on [mod.ts]. Listening with the default path token, the server of
    [mod.ts] answers 404 to every request, a POST to [/] included, and
    never enters the pipeline: a URL's pathname is never the empty
    string the token defaults to. *)
Theorem default_path_is_never_served (b : Builder) (port : Z) (heap : Heap)
  (request : Request) (w : world) :
  url_pathname request <> [] ->
  DenoLand.listen b port None heap request w = (w, [], Normal (empty_response 404)).
Proof.
  intros Hp. unfold DenoLand.listen, pathname_or_default.
  rewrite DenoLand_server_run.
  destruct (url_pathname request); [contradiction|].
  cbn [str_eqb]. now rewrite andb_false_r.
Qed.

End ListenerFacts.

(** ** Further properties: headers and verdict *)

Section HeaderProperties.
Context {host : Host}.

Lemma not_found_distinct :
  not_found (lit "x-github-event") <> not_found (lit "x-hub-signature-256").
Proof. intros H. vm_compute in H. discriminate H. Qed.

(** X1. [parseHeaders] never throws and changes nothing: it returns the
    two header values as [Headers.get] gives them, and its only effects
    are warnings, one for the event header exactly when that header is
    missing or empty, one for the signature header exactly when that one
    is, the event's first. *)
Theorem parseHeaders_reports (hs : Headers) (w : world) :
  let r := parseHeaders hs w in
  let ev := Headers_get hs (lit "x-github-event") in
  let sg := Headers_get hs (lit "x-hub-signature-256") in
  outcome r = Normal (ev, sg)
  /\ final r = w
  /\ trace r
     = (if truthy ev then [] else [Warn (not_found (lit "x-github-event"))])
       ++ (if truthy sg then [] else [Warn (not_found (lit "x-hub-signature-256"))])
  /\ (In (Warn (not_found (lit "x-github-event"))) (trace r) <-> truthy ev = false)
  /\ (In (Warn (not_found (lit "x-hub-signature-256"))) (trace r) <-> truthy sg = false).
Proof.
  cbn zeta. rewrite parseHeaders_run.
  unfold outcome, final, trace. cbn [fst snd].
  pose proof not_found_distinct as Hd.
  repeat split; try reflexivity;
    destruct (truthy (Headers_get hs (lit "x-github-event")));
    destruct (truthy (Headers_get hs (lit "x-hub-signature-256")));
    cbn [app In]; try reflexivity; try discriminate; intros H;
    repeat match goal with
           | H : _ \/ _ |- _ => destruct H
           | H : False |- _ => contradiction
           | H : Warn _ = Warn _ |- _ => injection H as H
           end;
    try congruence; auto.
Qed.

(** X2. A call of [validateSignature] prints exactly one line and changes
    nothing else: the green [crypto: ok] line tagged with the event when
    it returns [true], the red [crypto: fail] line when it returns
    [false]. *)
Theorem validateSignature_prints_verdict (sig body secret ev : jsstr) (w : world) :
  let r := validateSignature sig body secret ev w in
  final r = w
  /\ (outcome r = Normal true -> trace r = [ok_line ev])
  /\ (outcome r = Normal false -> trace r = [fail_line ev])
  /\ length (trace r) = 1%nat.
Proof.
  cbn zeta. rewrite validateSignature_value.
  unfold outcome, final, trace. cbn [fst snd].
  destruct (str_eqb sig (expected_signature secret body));
    repeat split; intros; try reflexivity; discriminate.
Qed.

End HeaderProperties.
(** ** Further properties: the handler loop *)

Section LoopFacts.
Context {host : Host}.

(** A response the loop returns was returned by a handler declared for
    the event, at some index of the whole list. *)
Lemma dispatch_response_origin (all : list Handler) (ev : option jsstr) (p : payload)
  (resp : Response) :
  forall hs before k w,
    all = before ++ hs -> length before = k ->
    outcome (dispatch k hs ev p w) = Normal (Some resp) ->
    exists i h w0,
      nth_error all i = Some h
      /\ strict_eqb (event h) ev = true
      /\ snd (handler h p w0) = Normal (Some resp)
      /\ In (Settle i (Normal (Some resp))) (trace (dispatch k hs ev p w)).
Proof.
  induction hs as [|h rest IH]; intros before k w Hall Hk Ho; [discriminate|].
  assert (Hnext : all = (before ++ [h]) ++ rest) by now rewrite <- app_assoc.
  assert (Hlen : length (before ++ [h]) = S k)
    by (rewrite length_app; cbn [length]; lia).
  assert (Hnth : nth_error all k = Some h).
  { rewrite Hall, nth_error_app2 by lia.
    replace (k - length before)%nat with 0%nat by lia. reflexivity. }
  destruct (strict_eqb (event h) ev) eqn:E.
  - rewrite (dispatch_hit _ _ _ _ _ _ E) in *.
    destruct (handler h p w) as [w1 [[r|]|]] eqn:Eh.
    + unfold outcome, trace in *. cbn [fst snd] in *.
      injection Ho as ->. exists k, h, w.
      split; [exact Hnth|]. split; [exact E|]. split; [now rewrite Eh|].
      right; now left.
    + specialize (IH _ _ w1 Hnext Hlen).
      destruct (dispatch (S k) rest ev p w1) as [[w2 t2] c2].
      unfold outcome, trace in *. cbn [fst snd] in *.
      destruct (IH Ho) as (i & h' & w0 & H1 & H2 & H3 & H4).
      exists i, h', w0. repeat split; try assumption.
      right; right; exact H4.
    + discriminate.
  - rewrite (dispatch_skip _ _ _ _ _ _ E) in *.
    now apply (IH (before ++ [h]) (S k) w Hnext Hlen).
Qed.

(** The loop prints nothing and decodes nothing. *)
Lemma dispatch_steps_only (hs : list Handler) (ev : option jsstr) (p : payload)
  (k : nat) (w : world) :
  Forall (fun e => is_handler_step e = true) (trace (dispatch k hs ev p w)).
Proof.
  rewrite dispatch_trace.
  induction (settled (trace (dispatch k hs ev p w))) as [|kc cs IH];
    cbn [flat_map steps app]; repeat constructor. exact IH.
Qed.

(** Handlers declared for other events can be taken out of the list:
    what the loop returns, the world it leaves and what the calls settle
    to stay the same. *)
Lemma dispatch_declared_only (hs : list Handler) (ev : option jsstr) (p : payload) :
  forall k k' w,
    outcome (dispatch k hs ev p w) = outcome (dispatch k' (declared_for ev hs) ev p w)
    /\ final (dispatch k hs ev p w) = final (dispatch k' (declared_for ev hs) ev p w)
    /\ map snd (settled (trace (dispatch k hs ev p w)))
       = map snd (settled (trace (dispatch k' (declared_for ev hs) ev p w))).
Proof.
  induction hs as [|h rest IH]; intros k k' w; [repeat split|].
  unfold declared_for in *. cbn [filter].
  destruct (strict_eqb (event h) ev) eqn:E.
  - rewrite !(dispatch_hit _ _ _ _ _ _ E).
    destruct (handler h p w) as [w1 [[r|]|]]; try solve [repeat split].
    specialize (IH (S k) (S k') w1).
    destruct (dispatch (S k) rest ev p w1) as [[w2 t2] c2].
    destruct (dispatch (S k') _ ev p w1) as [[w3 t3] c3].
    unfold outcome, final, trace in *. cbn [fst snd settled map] in *.
    destruct IH as (Ho & Hw & Hs). repeat split; try assumption.
    now rewrite Hs.
  - rewrite (dispatch_skip _ _ _ _ _ _ E). apply IH.
Qed.

(** Once the loop has stopped at a response or a fault, handlers further
    down the list play no part. *)
Lemma dispatch_stopped_app (hs more : list Handler) (ev : option jsstr) (p : payload) :
  forall k w,
    outcome (dispatch k hs ev p w) <> Normal None ->
    dispatch k (hs ++ more) ev p w = dispatch k hs ev p w.
Proof.
  induction hs as [|h rest IH]; intros k w Ho; [now contradiction Ho|].
  cbn [app]. destruct (strict_eqb (event h) ev) eqn:E.
  - rewrite !(dispatch_hit _ _ _ _ _ _ E) in *.
    destruct (handler h p w) as [w1 [[r|]|]]; try reflexivity.
    specialize (IH (S k) w1).
    destruct (dispatch (S k) rest ev p w1) as [[w2 t2] c2] eqn:Ed.
    unfold outcome in *. cbn [snd] in *. now rewrite (IH Ho).
  - rewrite !(dispatch_skip _ _ _ _ _ _ E) in *. now apply IH.
Qed.

(** When the loop runs off the end of [hs], it goes on with [more], on
    the world [hs] left. *)
Lemma dispatch_quiet_app (hs more : list Handler) (ev : option jsstr) (p : payload) :
  forall k w,
    outcome (dispatch k hs ev p w) = Normal None ->
    dispatch k (hs ++ more) ev p w
    = let '(w2, t2, c) :=
        dispatch (k + length hs) more ev p (final (dispatch k hs ev p w)) in
      (w2, trace (dispatch k hs ev p w) ++ t2, c).
Proof.
  induction hs as [|h rest IH]; intros k w Ho.
  - cbn [app length]. rewrite Nat.add_0_r. unfold final, trace. cbn [dispatch].
    unfold ret. cbn [fst snd app].
    now destruct (dispatch k more ev p w) as [[w2 t2] c].
  - cbn [app length]. replace (k + S (length rest))%nat with (S k + length rest)%nat by lia.
    destruct (strict_eqb (event h) ev) eqn:E.
    + rewrite !(dispatch_hit _ _ _ _ _ _ E) in *.
      destruct (handler h p w) as [w1 [[r|]|]]; try discriminate.
      specialize (IH (S k) w1).
      destruct (dispatch (S k) rest ev p w1) as [[w2 t2] c2] eqn:Ed.
      unfold outcome, final, trace in *. cbn [fst snd] in *.
      rewrite (IH Ho).
      now destruct (dispatch (S k + length rest) more ev p w2) as [[w3 t3] c3].
    + rewrite !(dispatch_skip _ _ _ _ _ _ E) in *. now apply IH.
Qed.

End LoopFacts.
(** ** Further properties: the pipeline *)

Section PipelineProperties.
Context {host : Host}.

(** X3. A response [handle] returns is its own 403, its own 500, or the
    response that a handler declared for the inbound event returned when
    called with the decoded body; there is no other source. *)
Theorem handle_response_origin (request : Request) (hs : list Handler)
  (secret : option jsstr) (w : world) (resp : Response) :
  outcome (handle request hs secret w) = Normal (Some resp) ->
  own_response resp
  \/ exists i h p w0,
       nth_error hs i = Some h
       /\ strict_eqb (event h) (event_header request) = true
       /\ JSON_parse (text request) = Some p
       /\ snd (handler h p w0) = Normal (Some resp)
       /\ In (Settle i (Normal (Some resp))) (trace (handle request hs secret w)).
Proof.
  destruct (authorized request secret) eqn:Ea.
  - rewrite (handle_authorized _ _ _ _ Ea).
    destruct (JSON_parse (text request)) as [p|] eqn:Ep.
    + pose proof (dispatch_response_origin hs (event_header request) p resp
                    hs [] 0 w eq_refl eq_refl) as Horigin.
      destruct (dispatch 0 hs (event_header request) p w) as [[w' t] [r|]].
      * unfold outcome, trace in *. cbn [fst snd] in *. intros Ho.
        destruct (Horigin Ho) as (i & h & w0 & H1 & H2 & H3 & H4).
        right. exists i, h, p, w0. repeat split; try assumption.
        apply in_or_app. right. now right.
      * unfold outcome. cbn [snd]. intros Ho. injection Ho as <-.
        left. now right.
    + unfold outcome. cbn [snd]. intros Ho. injection Ho as <-. left. now right.
  - rewrite (handle_unauthorized _ _ _ _ Ea).
    unfold outcome. cbn [snd]. intros Ho. injection Ho as <-. left. now left.
Qed.

(** The console lines of a run are those of its guard. *)
Lemma log_lines_at_gate (request : Request) (hs : list Handler)
  (secret : option jsstr) (w : world) :
  filter is_log (trace (handle request hs secret w))
  = filter is_log (gate_trace request secret).
Proof.
  assert (Hbody : forall t, Forall (fun e => is_handler_step e = true) t ->
                            filter is_log t = []).
  { induction 1 as [|e t He _ IH]; [reflexivity|].
    destruct e; try discriminate; exact IH. }
  rewrite handle_run, body_run.
  destruct (authorized request secret); [|reflexivity].
  destruct (JSON_parse (text request)) as [p|].
  - pose proof (dispatch_steps_only hs (event_header request) p 0 w) as Hs.
    destruct (dispatch 0 hs (event_header request) p w) as [[w' t] c].
    unfold trace in *. cbn [fst snd] in *.
    rewrite filter_app. cbn [filter is_log]. now rewrite (Hbody _ Hs), app_nil_r.
  - unfold trace. cbn [fst snd]. rewrite filter_app. cbn [filter is_log].
    now rewrite app_nil_r.
Qed.

(** X4. [handle] verifies a signature at most once, and exactly when the
    event header, the secret and the signature header are all non-empty:
    the console lines of the run are then the one line of that
    [validateSignature] call, and otherwise there is none. *)
Theorem verification_runs_at_most_once (request : Request) (hs : list Handler)
  (secret : option jsstr) (w : world) :
  let r := handle request hs secret w in
  let ev := event_header request in
  let sg := signature_header request in
  (truthy ev && truthy secret && truthy sg = true ->
   filter is_log (trace r)
   = trace (validateSignature (str sg) (text request) (str secret) (str ev) w))
  /\ (truthy ev && truthy secret && truthy sg = false -> filter is_log (trace r) = []).
Proof.
  cbn zeta.
  rewrite log_lines_at_gate, validateSignature_value. unfold gate_trace, trace. cbn [fst snd].
  destruct (truthy (event_header request)), (truthy (signature_header request)),
    (truthy secret); cbn [andb app filter is_warn is_log];
    (split; intros H; try discriminate H; try reflexivity).
  now destruct (str_eqb _ _).
Qed.

(** X5. Without a secret (absent or empty) the signature header is not
    looked at: two requests with the same body and the same event header
    get the same result and leave the same world, whatever their
    signature headers are, and no signature is verified. *)
Theorem signature_ignored_without_secret (r1 r2 : Request) (hs : list Handler)
  (secret : option jsstr) (w : world) :
  truthy secret = false ->
  text r1 = text r2 ->
  event_header r1 = event_header r2 ->
  outcome (handle r1 hs secret w) = outcome (handle r2 hs secret w)
  /\ final (handle r1 hs secret w) = final (handle r2 hs secret w)
  /\ filter is_log (trace (handle r1 hs secret w)) = [].
Proof.
  intros Hs Ht He.
  assert (Ea : authorized r1 secret = authorized r2 secret).
  { unfold authorized. now rewrite He, Hs. }
  split; [|split].
  - rewrite !handle_run, !body_run, Ea, Ht, He.
    destruct (authorized r2 secret); [|reflexivity].
    destruct (JSON_parse (text r2)) as [p|]; [|reflexivity].
    now destruct (dispatch 0 hs (event_header r2) p w) as [[w' t] c].
  - rewrite !handle_run, !body_run, Ea, Ht, He.
    destruct (authorized r2 secret); [|reflexivity].
    destruct (JSON_parse (text r2)) as [p|]; [|reflexivity].
    now destruct (dispatch 0 hs (event_header r2) p w) as [[w' t] c].
  - rewrite log_lines_at_gate. unfold gate_trace. rewrite Hs.
    destruct (truthy (event_header r1)), (truthy (signature_header r1)); reflexivity.
Qed.

End PipelineProperties.
Section ListProperties.
Context {host : Host}.

(** X6. [handle] changes the world only through the handlers it calls: a
    run in which no handler is entered leaves the world as it found it. *)
Theorem world_changes_only_through_handlers (request : Request) (hs : list Handler)
  (secret : option jsstr) (w : world) :
  (forall k p, ~ In (Invoke k p) (trace (handle request hs secret w))) ->
  final (handle request hs secret w) = w.
Proof.
  rewrite handle_run, body_run.
  destruct (authorized request secret); [|reflexivity].
  destruct (JSON_parse (text request)) as [p|]; [|reflexivity].
  pose proof (dispatch_trace hs (event_header request) p 0 w) as Htr.
  pose proof (dispatch_replay hs (event_header request) p hs [] 0 w eq_refl eq_refl)
    as Hrep.
  cbn zeta in Hrep.
  destruct (dispatch 0 hs (event_header request) p w) as [[w' t] c].
  unfold trace, final in *. cbn [fst snd] in *. intros Hno.
  destruct (settled t) as [|[k c0] cs].
  - cbn [map replay] in Hrep. now injection Hrep.
  - exfalso. apply (Hno k p). apply in_or_app. right. right.
    rewrite Htr. now left.
Qed.

(** X7. Handlers registered for other events do not matter: with them
    taken out of the list, [handle] returns the same result and leaves
    the same world. *)
Theorem other_events_do_not_matter (request : Request) (hs : list Handler)
  (secret : option jsstr) (w : world) :
  let mine := declared_for (event_header request) hs in
  outcome (handle request hs secret w) = outcome (handle request mine secret w)
  /\ final (handle request hs secret w) = final (handle request mine secret w)
  /\ map snd (settled (trace (handle request hs secret w)))
     = map snd (settled (trace (handle request mine secret w))).
Proof.
  cbn zeta. rewrite !handle_run, !body_run.
  destruct (authorized request secret); [|repeat split].
  destruct (JSON_parse (text request)) as [p|]; [|repeat split].
  destruct (dispatch_declared_only hs (event_header request) p 0 0 w) as (Ho & Hw & Hs).
  destruct (dispatch 0 hs (event_header request) p w) as [[w1 t1] c1].
  destruct (dispatch 0 (declared_for _ hs) (event_header request) p w) as [[w2 t2] c2].
  unfold outcome, final, trace in *. cbn [fst snd] in *.
  rewrite !settled_app, !(settled_console _ (gate_trace_console request secret)).
  cbn [app settled]. subst. repeat split. exact Hs.
Qed.

(** X8. A response is final: when [handle] returns a response for a
    request, registering further handlers after the present ones changes
    nothing of that run, neither its result nor its effects nor the
    world it leaves. *)
Theorem later_handlers_cannot_override (request : Request) (hs more : list Handler)
  (secret : option jsstr) (w : world) (resp : Response) :
  outcome (handle request hs secret w) = Normal (Some resp) ->
  handle request (hs ++ more) secret w = handle request hs secret w.
Proof.
  rewrite !handle_run, !body_run.
  destruct (authorized request secret); [|reflexivity].
  destruct (JSON_parse (text request)) as [p|]; [|reflexivity].
  pose proof (dispatch_stopped_app hs more (event_header request) p 0 w) as Happ.
  destruct (dispatch 0 hs (event_header request) p w) as [[w1 t1] c1] eqn:Ed.
  unfold outcome in *. cbn [snd] in *. intros Ho.
  rewrite Happ; [reflexivity|].
  destruct c1 as [[r|]|]; discriminate.
Qed.

(** X9. When [handle] returns nothing for an authorized request whose
    body decodes to [p], handlers registered after the present ones run
    next, in their order and on the world the present ones left. *)
Theorem later_handlers_run_next (request : Request) (hs more : list Handler)
  (secret : option jsstr) (w : world) (p : payload) :
  authorized request secret = true ->
  JSON_parse (text request) = Some p ->
  outcome (handle request hs secret w) = Normal None ->
  handle request (hs ++ more) secret w
  = let r := handle request hs secret w in
    let '(w2, t2, c) := dispatch (length hs) more (event_header request) p (final r) in
    (w2, trace r ++ t2, caught c).
Proof.
  intros Ea Ep. rewrite !(handle_authorized _ _ _ _ Ea), Ep.
  pose proof (dispatch_quiet_app hs more (event_header request) p 0 w) as Happ.
  destruct (dispatch 0 hs (event_header request) p w) as [[w1 t1] c1] eqn:Ed.
  unfold outcome, final, trace in *. cbn [fst snd Nat.add] in *. intros Ho.
  assert (Hc : c1 = Normal None) by (destruct c1 as [[r|]|]; congruence).
  subst c1. rewrite (Happ eq_refl).
  destruct (dispatch (length hs) more (event_header request) p w1) as [[w2 t2] c2].
  cbn zeta. rewrite <- app_assoc. cbn [app]. now destruct c2.
Qed.

End ListProperties.
(** ** Further properties: builders and listeners *)

Section BuilderProperties.
Context {host : Host}.

Lemma register_result (es : list Handler) :
  forall (b : Builder) (heap : Heap),
    (builder_handlers b < length heap)%nat ->
    array_at (fst (register es b heap)) (builder_handlers (snd (register es b heap)))
    = array_at heap (builder_handlers b) ++ es
    /\ builder_secret (snd (register es b heap)) = builder_secret b
    /\ (forall r, (r < length heap)%nat ->
                  array_at (fst (register es b heap)) r = array_at heap r).
Proof.
  induction es as [|e es IH]; intros b heap Hb.
  - cbn [register fst snd]. rewrite app_nil_r. repeat split.
  - cbn [register].
    destruct (on_result b (event e) (handler e) heap) as (Hnew & Hsec & Hb1 & Hgrow).
    pose proof (on_frame b (event e) (handler e) heap) as Hframe.
    destruct (on b (event e) (handler e) heap) as [heap1 b1].
    cbn [fst snd] in *.
    destruct (IH b1 heap1 Hb1) as (Harr & Hs & Hf).
    split; [|split].
    + rewrite Harr, Hnew, <- app_assoc. now destruct e.
    + now rewrite Hs.
    + intros r Hr. rewrite Hf by lia. now apply Hframe.
Qed.

(** X10. A chain [webhook(secret).on(e1, h1)....on(en, hn)] gives a
    builder whose handlers are exactly the entries of the chain in the
    order of the calls and whose secret is [secret]; its [handle] is
    [handle] over those entries; and building it writes to no array that
    existed before. *)
Theorem chain_registers_in_order (secret : option jsstr) (es : list Handler)
  (heap : Heap) (request : Request) :
  let start := webhook secret heap in
  let built := register es (snd start) (fst start) in
  array_at (fst built) (builder_handlers (snd built)) = es
  /\ builder_secret (snd built) = secret
  /\ builder_handle (snd built) request (fst built) = handle request es secret
  /\ (forall r, (r < length heap)%nat -> array_at (fst built) r = array_at heap r).
Proof.
  cbn zeta. unfold webhook, alloc, webhookBuilder. cbn [fst snd].
  assert (Hb : (builder_handlers (mkBuilder (length heap) secret)
                < length (heap ++ [[]]))%nat)
    by (rewrite length_app; cbn [length builder_handlers]; lia).
  destruct (register_result es _ _ Hb) as (Harr & Hs & Hf).
  cbn [builder_handlers builder_secret] in Harr, Hs.
  rewrite array_at_new in Harr. cbn [app] in Harr.
  split; [exact Harr|]. split; [exact Hs|]. split.
  - unfold builder_handle. now rewrite Harr, Hs.
  - intros r Hr. rewrite Hf by (rewrite length_app; cbn [length]; lia).
    now apply array_at_old.
Qed.

End BuilderProperties.

Section ListenerProperties.
Context {host : Host}.





(** X13. With a path token given to [listen], the two modules serve a
    request alike: same response, same effects, same world. *)
Theorem listen_agrees_on_given_path (b : Builder) (port : Z) (token : jsstr)
  (heap : Heap) (request : Request) (w : world) :
  token <> [] -> url_pathname request <> [] ->
  DenoLand.listen b port (Some token) heap request w
  = Jsr.listen b port (Some token) heap request w.
Proof.
  intros Ht Hp. unfold DenoLand.listen, Jsr.listen, pathname_or_default.
  now apply servers_agree_on_given_path.
Qed.

(** X14. [listen] serves the handlers its builder holds: on the JSR
    module, listening without a path is listening on [/]; and in both
    modules a later [on] on the same builder changes nothing of what an
    earlier [listen] serves. *)
Theorem listen_keeps_its_handlers (b : Builder) (port : Z) (path : option jsstr)
  (heap : Heap) (ev : jsstr)
  (h : payload -> world -> world * completion (option Response)) :
  (builder_handlers b < length heap)%nat ->
  Jsr.listen b port None heap = Jsr.listen b port (Some (lit "/")) heap
  /\ Jsr.listen b port path (fst (on b ev h heap)) = Jsr.listen b port path heap
  /\ DenoLand.listen b port path (fst (on b ev h heap)) = DenoLand.listen b port path heap.
Proof.
  intros Hb. split; [reflexivity|].
  unfold Jsr.listen, DenoLand.listen. now rewrite (on_frame b ev h heap _ Hb).
Qed.

End ListenerProperties.

(** ** Concrete runs, on the sample host *)

#[local] Existing Instance Demo.host.

Example good_signature_is_expected :
  Demo.good_signature = expected_signature Demo.secret (lit "{}").
Proof. vm_compute. reflexivity. Qed.

(** A signed [star] delivery: the [push] handler is passed over, the
    first [star] handler runs and returns nothing, the second answers,
    the third is not reached. *)
Example signed_star_run :
  handle Demo.star_signed Demo.four_handlers (Some Demo.secret) []
  = ([lit "a"; lit "answer"],
     [ok_line (lit "star"); Parse (lit "{}");
      Invoke 1 (Demo.JObj []); Settle 1 (Normal None);
      Invoke 2 (Demo.JObj []);
      Settle 2 (Normal (Some (mkResponse 202 (Some (lit "ok")))))],
     Normal (Some (mkResponse 202 (Some (lit "ok"))))).
Proof. vm_compute. reflexivity. Qed.

(** The same delivery without its signature header is turned away. *)
Example unsigned_star_run :
  handle Demo.star_unsigned Demo.four_handlers (Some Demo.secret) []
  = ([], [Warn (not_found (lit "x-hub-signature-256"))],
     Normal (Some (empty_response 403))).
Proof. vm_compute. reflexivity. Qed.

(** A handler that throws: 500, after the handler ran. *)
Example throwing_handler_run :
  handle Demo.star_signed [Demo.star_throws; Demo.star_replies]
         (Some Demo.secret) []
  = ([lit "boom"],
     [ok_line (lit "star"); Parse (lit "{}");
      Invoke 0 (Demo.JObj []); Settle 0 Throw],
     Normal (Some (empty_response 500))).
Proof. vm_compute. reflexivity. Qed.

(** ** Witnesses and counterexamples *)

Lemma validateSignature_iff_expected_witness :
  Demo.secret <> []
  /\ exists b,
       outcome (validateSignature Demo.good_signature (lit "{}")
                                  Demo.secret (lit "star") []) = Normal b
       /\ (b = true <-> Demo.good_signature = expected_signature Demo.secret (lit "{}"))
       /\ (length (Utf8.encode Demo.good_signature)
           <> length (Utf8.encode (expected_signature Demo.secret (lit "{}")))
           -> b = false).
Proof.
  split; [intros H; vm_compute in H; discriminate H|].
  apply validateSignature_iff_expected.
  intros H; vm_compute in H; discriminate H.
Defined.

Lemma verification_precedes_dispatch_witness :
  Demo.secret <> []
  /\ exists sig ev,
       signature_header Demo.star_signed = Some sig
       /\ event_header Demo.star_signed = Some ev
       /\ outcome (validateSignature sig (text Demo.star_signed)
                                     Demo.secret ev []) = Normal true
       /\ In (ok_line ev) [ok_line (lit "star")].
Proof.
  assert (Hs : Demo.secret <> []) by (intros H; vm_compute in H; discriminate H).
  split; [exact Hs|].
  apply (proj1 (verification_precedes_dispatch
                  Demo.star_signed Demo.four_handlers Demo.secret [] Hs)
               [ok_line (lit "star")] (Parse (lit "{}"))
               [@Invoke Demo.host 1 (Demo.JObj []); Settle 1 (Normal None);
                @Invoke Demo.host 2 (Demo.JObj []);
                Settle 2 (Normal (Some (mkResponse 202 (Some (lit "ok")))))]).
  - vm_compute. reflexivity.
  - reflexivity.
Defined.

(** C3, the counterexample. No secret, the event header present, and a
    handler that answers 403 with no body: [handle] returns that 403
    though none of the listed causes holds. *)
Lemma handler_made_403_counterexample :
  outcome (handle Demo.star_unsigned [Demo.star_refuses] None [])
  = Normal (Some (empty_response 403))
  /\ ~ listed_cause Demo.star_unsigned None.
Proof.
  split; [vm_compute; reflexivity|].
  intros [H | [[(s & H & _) _] | [(s & H & _) _]]]; discriminate H.
Qed.

Lemma rejection_iff_cause_witness :
  configured (Some Demo.secret)
  /\ signature_header Demo.star_unsigned = None
  /\ outcome (handle Demo.star_unsigned Demo.four_handlers
                     (Some Demo.secret) [])
     = Normal (Some (empty_response 403))
  /\ final (handle Demo.star_unsigned Demo.four_handlers
                   (Some Demo.secret) []) = [].
Proof.
  assert (Hc : configured (Some Demo.secret)).
  { exists Demo.secret. split; [reflexivity|]. intros H; vm_compute in H; discriminate H. }
  assert (Hn : signature_header Demo.star_unsigned = None) by (vm_compute; reflexivity).
  split; [exact Hc|]. split; [exact Hn|].
  exact (proj2 (rejection_iff_cause Demo.star_unsigned
                  Demo.four_handlers (Some Demo.secret) []) Hc Hn).
Defined.

Lemma handlers_run_in_order_witness :
  authorized Demo.star_signed (Some Demo.secret) = true
  /\ JSON_parse (text Demo.star_signed) = Some (Demo.JObj [])
  /\ let r := handle Demo.star_signed Demo.four_handlers
                     (Some Demo.secret) [] in
     let cs := settled (trace r) in
     filter is_handler_step (trace r) = flat_map (steps (Demo.JObj [])) cs
     /\ (exists later,
            matching Demo.four_handlers (event_header Demo.star_signed)
            = map fst cs ++ later)
     /\ replay Demo.four_handlers (Demo.JObj []) (map fst cs) [] = (final r, cs)
     /\ (forall before k resp after,
            cs = before ++ (k, Normal (Some resp)) :: after ->
            after = [] /\ outcome r = Normal (Some resp))
     /\ (Forall quiet cs ->
         map fst cs = matching Demo.four_handlers (event_header Demo.star_signed)
         /\ outcome r = Normal None).
Proof.
  assert (Ha : authorized Demo.star_signed (Some Demo.secret) = true)
    by (vm_compute; reflexivity).
  assert (Hp : JSON_parse (text Demo.star_signed) = Some (Demo.JObj []))
    by (vm_compute; reflexivity).
  split; [exact Ha|]. split; [exact Hp|].
  exact (handlers_run_in_order Demo.star_signed Demo.four_handlers
           (Some Demo.secret) [] (Demo.JObj []) Ha Hp).
Defined.

Lemma faults_become_500_witness :
  authorized Demo.star_malformed (Some Demo.secret) = true
  /\ JSON_parse (text Demo.star_malformed) = None
  /\ outcome (handle Demo.star_malformed Demo.four_handlers
                     (Some Demo.secret) [])
     = Normal (Some (empty_response 500)).
Proof.
  assert (Ha : authorized Demo.star_malformed (Some Demo.secret) = true)
    by (vm_compute; reflexivity).
  assert (Hp : JSON_parse (text Demo.star_malformed) = None)
    by (vm_compute; reflexivity).
  split; [exact Ha|]. split; [exact Hp|].
  exact (proj2 (faults_become_500 Demo.star_malformed
                  Demo.four_handlers (Some Demo.secret) []) Ha (or_introl Hp)).
Defined.

(** C7, the counterexample. A [star] delivery without signature, a secret
    configured, and only a [push] handler registered: no handler matches,
    yet the result is the 403 response, not an absent one. *)
Lemma unmatched_unauthorized_counterexample :
  matching [Demo.on_push (lit "p")] (event_header Demo.star_unsigned) = []
  /\ outcome (handle Demo.star_unsigned [Demo.on_push (lit "p")] (Some Demo.secret) [])
     = Normal (Some (empty_response 403))
  /\ outcome (handle Demo.star_unsigned [Demo.on_push (lit "p")] (Some Demo.secret) [])
     <> Normal None.
Proof.
  split; [vm_compute; reflexivity|].
  split; [vm_compute; reflexivity|].
  intros H. vm_compute in H. discriminate H.
Qed.

Lemma unmatched_event_is_absent_witness :
  authorized Demo.star_signed (Some Demo.secret) = true
  /\ JSON_parse (text Demo.star_signed) <> None
  /\ matching [Demo.on_push (lit "p")] (event_header Demo.star_signed) = []
  /\ let r := handle Demo.star_signed [Demo.on_push (lit "p")] (Some Demo.secret) [] in
     outcome r = Normal None /\ settled (trace r) = [] /\ final r = []
     /\ Forall (fun e => is_handler_step e = false) (trace r).
Proof.
  assert (Ha : authorized Demo.star_signed (Some Demo.secret) = true)
    by (vm_compute; reflexivity).
  assert (Hp : JSON_parse (text Demo.star_signed) <> None)
    by (intros H; vm_compute in H; discriminate H).
  assert (Hm : matching [Demo.on_push (lit "p")] (event_header Demo.star_signed) = [])
    by (vm_compute; reflexivity).
  split; [exact Ha|]. split; [exact Hp|]. split; [exact Hm|].
  exact (unmatched_event_is_absent Demo.star_signed [Demo.on_push (lit "p")]
           (Some Demo.secret) [] Ha Hp Hm).
Defined.

Lemma on_appends_and_preserves_witness :
  (builder_handlers Demo.builder0 < length Demo.heap0)%nat
  /\ array_at (fst (on Demo.builder0 (lit "star") (Demo.note (lit "a")) Demo.heap0))
              (builder_handlers
                 (snd (on Demo.builder0 (lit "star") (Demo.note (lit "a")) Demo.heap0)))
     = array_at Demo.heap0 (builder_handlers Demo.builder0)
       ++ [mkHandler (lit "star") (Demo.note (lit "a"))].
Proof.
  assert (Hb : (builder_handlers Demo.builder0 < length Demo.heap0)%nat)
    by (vm_compute; lia).
  split; [exact Hb|].
  exact (proj1 (on_appends_and_preserves Demo.builder0 (lit "star")
                  (Demo.note (lit "a")) Demo.heap0 Hb)).
Defined.

(** The failing input of C6: [webhook(secret).listen(3000)] on [mod.ts]
    and a correctly signed POST to [/]. *)
Lemma default_path_is_never_served_witness :
  url_pathname Demo.star_signed <> []
  /\ DenoLand.listen Demo.builder0 3000 None Demo.heap0 Demo.star_signed []
     = ([], [], Normal (empty_response 404)).
Proof.
  assert (Hp : url_pathname Demo.star_signed <> [])
    by (intros H; vm_compute in H; discriminate H).
  split; [exact Hp|].
  exact (default_path_is_never_served Demo.builder0 3000 Demo.heap0 Demo.star_signed [] Hp).
Defined.

(** The JSR sibling on the same input passes the request on and, no
    handler being registered, answers 200. *)
Example jsr_default_path_run :
  Jsr.listen Demo.builder0 3000 None Demo.heap0 Demo.star_signed []
  = ([], [ok_line (lit "star"); Parse (lit "{}")], Normal (empty_response 200)).
Proof. vm_compute. reflexivity. Qed.

(** An event header with an empty value is treated as a missing one. *)
Example empty_event_run :
  handle Demo.empty_event [] None []
  = ([], [Warn (not_found (lit "x-github-event"));
          Warn (not_found (lit "x-hub-signature-256"))],
     Normal (Some (empty_response 403))).
Proof. vm_compute. reflexivity. Qed.

(** ** Witnesses of the further properties *)

Lemma handle_response_origin_witness :
  outcome (handle Demo.star_unsigned Demo.four_handlers None [])
  = Normal (Some (mkResponse 202 (Some (lit "ok"))))
  /\ (own_response (mkResponse 202 (Some (lit "ok")))
      \/ exists i h p w0,
           nth_error Demo.four_handlers i = Some h
           /\ strict_eqb (event h) (event_header Demo.star_unsigned) = true
           /\ JSON_parse (text Demo.star_unsigned) = Some p
           /\ snd (handler h p w0) = Normal (Some (mkResponse 202 (Some (lit "ok"))))
           /\ In (Settle i (Normal (Some (mkResponse 202 (Some (lit "ok"))))))
                 (trace (handle Demo.star_unsigned Demo.four_handlers None []))).
Proof.
  assert (Ho : outcome (handle Demo.star_unsigned Demo.four_handlers None [])
               = Normal (Some (mkResponse 202 (Some (lit "ok")))))
    by (vm_compute; reflexivity).
  split; [exact Ho|].
  exact (handle_response_origin Demo.star_unsigned Demo.four_handlers None [] _ Ho).
Defined.

Lemma signature_ignored_without_secret_witness :
  truthy None = false
  /\ text Demo.star_unsigned = text Demo.star_signed
  /\ event_header Demo.star_unsigned = event_header Demo.star_signed
  /\ outcome (handle Demo.star_unsigned Demo.four_handlers None [])
     = outcome (handle Demo.star_signed Demo.four_handlers None [])
  /\ final (handle Demo.star_unsigned Demo.four_handlers None [])
     = final (handle Demo.star_signed Demo.four_handlers None [])
  /\ filter is_log (trace (handle Demo.star_unsigned Demo.four_handlers None [])) = [].
Proof.
  assert (Hs : truthy None = false) by reflexivity.
  assert (Ht : text Demo.star_unsigned = text Demo.star_signed) by reflexivity.
  assert (He : event_header Demo.star_unsigned = event_header Demo.star_signed)
    by (vm_compute; reflexivity).
  split; [exact Hs|]. split; [exact Ht|]. split; [exact He|].
  exact (signature_ignored_without_secret Demo.star_unsigned Demo.star_signed
           Demo.four_handlers None [] Hs Ht He).
Defined.

Lemma world_changes_only_through_handlers_witness :
  (forall k p, ~ In (Invoke k p)
                    (trace (handle Demo.star_unsigned [Demo.on_push (lit "p")] None [lit "before"])))
  /\ final (handle Demo.star_unsigned [Demo.on_push (lit "p")] None [lit "before"])
     = [lit "before"].
Proof.
  assert (Hno : forall k p,
             ~ In (Invoke k p)
                  (trace (handle Demo.star_unsigned [Demo.on_push (lit "p")] None
                                 [lit "before"]))).
  { intros k p H. vm_compute in H. destruct H as [H | [H | []]]; discriminate H. }
  split; [exact Hno|].
  exact (world_changes_only_through_handlers Demo.star_unsigned
           [Demo.on_push (lit "p")] None [lit "before"] Hno).
Defined.

Lemma later_handlers_cannot_override_witness :
  outcome (handle Demo.star_unsigned [Demo.star_replies] None [])
  = Normal (Some (mkResponse 202 (Some (lit "ok"))))
  /\ handle Demo.star_unsigned ([Demo.star_replies] ++ [Demo.star_refuses]) None []
     = handle Demo.star_unsigned [Demo.star_replies] None [].
Proof.
  assert (Ho : outcome (handle Demo.star_unsigned [Demo.star_replies] None [])
               = Normal (Some (mkResponse 202 (Some (lit "ok")))))
    by (vm_compute; reflexivity).
  split; [exact Ho|].
  exact (later_handlers_cannot_override Demo.star_unsigned [Demo.star_replies]
           [Demo.star_refuses] None [] _ Ho).
Defined.

Lemma later_handlers_run_next_witness :
  authorized Demo.star_unsigned None = true
  /\ JSON_parse (text Demo.star_unsigned) = Some (Demo.JObj [])
  /\ outcome (handle Demo.star_unsigned [Demo.on_star (lit "a")] None []) = Normal None
  /\ handle Demo.star_unsigned ([Demo.on_star (lit "a")] ++ [Demo.star_replies]) None []
     = let r := handle Demo.star_unsigned [Demo.on_star (lit "a")] None [] in
       let '(w2, t2, c) :=
         dispatch (length [Demo.on_star (lit "a")]) [Demo.star_replies]
                  (event_header Demo.star_unsigned) (Demo.JObj []) (final r) in
       (w2, trace r ++ t2, caught c).
Proof.
  assert (Ha : authorized Demo.star_unsigned None = true) by (vm_compute; reflexivity).
  assert (Hp : JSON_parse (text Demo.star_unsigned) = Some (Demo.JObj []))
    by (vm_compute; reflexivity).
  assert (Ho : outcome (handle Demo.star_unsigned [Demo.on_star (lit "a")] None [])
               = Normal None) by (vm_compute; reflexivity).
  split; [exact Ha|]. split; [exact Hp|]. split; [exact Ho|].
  exact (later_handlers_run_next Demo.star_unsigned [Demo.on_star (lit "a")]
           [Demo.star_replies] None [] (Demo.JObj []) Ha Hp Ho).
Defined.


Lemma listen_agrees_on_given_path_witness :
  lit "/" <> []
  /\ url_pathname Demo.star_unsigned <> []
  /\ DenoLand.listen Demo.builder0 3000 (Some (lit "/")) Demo.heap0 Demo.star_unsigned []
     = Jsr.listen Demo.builder0 3000 (Some (lit "/")) Demo.heap0 Demo.star_unsigned [].
Proof.
  assert (Ht : lit "/" <> []) by (intros H; vm_compute in H; discriminate H).
  assert (Hp : url_pathname Demo.star_unsigned <> [])
    by (intros H; vm_compute in H; discriminate H).
  split; [exact Ht|]. split; [exact Hp|].
  exact (listen_agrees_on_given_path Demo.builder0 3000 (lit "/") Demo.heap0
           Demo.star_unsigned [] Ht Hp).
Defined.

Lemma listen_keeps_its_handlers_witness :
  (builder_handlers Demo.builder0 < length Demo.heap0)%nat
  /\ Jsr.listen Demo.builder0 3000 None Demo.heap0
     = Jsr.listen Demo.builder0 3000 (Some (lit "/")) Demo.heap0
  /\ Jsr.listen Demo.builder0 3000 None
                (fst (on Demo.builder0 (lit "star") (Demo.note (lit "a")) Demo.heap0))
     = Jsr.listen Demo.builder0 3000 None Demo.heap0
  /\ DenoLand.listen Demo.builder0 3000 None
                     (fst (on Demo.builder0 (lit "star") (Demo.note (lit "a")) Demo.heap0))
     = DenoLand.listen Demo.builder0 3000 None Demo.heap0.
Proof.
  assert (Hb : (builder_handlers Demo.builder0 < length Demo.heap0)%nat)
    by (vm_compute; lia).
  split; [exact Hb|].
  exact (listen_keeps_its_handlers Demo.builder0 3000 None Demo.heap0 (lit "star")
           (Demo.note (lit "a")) Hb).
Defined.

(** The chain of the README, with a second handler, on an empty heap. *)
Example readme_chain_run :
  let built := register [Demo.on_star (lit "a"); Demo.star_replies]
                        (snd (webhook (Some Demo.secret) []))
                        (fst (webhook (Some Demo.secret) [])) in
  builder_handle (snd built) Demo.star_signed (fst built) []
  = ([lit "a"; lit "answer"],
     [ok_line (lit "star"); Parse (lit "{}");
      Invoke 0 (Demo.JObj []); Settle 0 (Normal None);
      Invoke 1 (Demo.JObj []);
      Settle 1 (Normal (Some (mkResponse 202 (Some (lit "ok")))))],
     Normal (Some (mkResponse 202 (Some (lit "ok"))))).
Proof. vm_compute. reflexivity. Qed.
